(** * DVID keyspace encoding, identifiers and concurrency governor

    A shallow embedding of three Go source files of DVID:
    - the voxels keyspace ([KeyType], the index builders and decoders),
    - the identifier types ([LocalID], [LocalID32], [InstanceID], [RepoID],
      [VersionID], [UUID]),
    - the local server ([SetupEngines], the handler token pool) and the
      cgo drain loop ([BlockOnActiveCgo]).

    Bytes are integers in [0, 256); Go's unsigned integers are integers with
    the truncation written out.  A Go run-time panic (index or slice bounds
    out of range) is [None] in the [option] monad. *)

From Stdlib Require Import String Ascii DecimalString.
From Stdlib Require Import ZArith List Lia Bool.
Import ListNotations.
Open Scope Z_scope.

(** ** Go primitives: bytes, slices, [copy], [encoding/binary] *)

Module Go.

Definition byte := Z.

Definition is_byte (b : Z) : Prop := 0 <= b < 256.

(** The conversion [byte(v)] keeps the low eight bits. *)
Definition to_byte (v : Z) : byte := v mod 256.

Definition len {A} (s : list A) : Z := Z.of_nat (length s).

(** [make([]byte, n)] is zero filled. *)
Definition make (n : Z) : list byte := repeat 0 (Z.to_nat n).

Definition bind {A B} (m : option A) (f : A -> option B) : option B :=
  match m with
  | Some a => f a
  | None => None
  end.

Notation "x <- m ;; k" := (bind m (fun x => k))
  (at level 61, m at next level, right associativity).

(** [s[i]]: panics unless [0 <= i < len(s)]. *)
Definition index {A} (s : list A) (i : Z) : option A :=
  if (0 <=? i) && (i <? len s) then nth_error s (Z.to_nat i) else None.

(** [s[i] = x]. *)
Definition set_index {A} (s : list A) (i : Z) (x : A) : option (list A) :=
  if (0 <=? i) && (i <? len s)
  then Some (firstn (Z.to_nat i) s ++ x :: skipn (S (Z.to_nat i)) s)
  else None.

(** [s[lo:hi]]: panics unless [0 <= lo <= hi <= cap(s)].  The buffers built
    here come from [make] with their capacity equal to their length.  A
    slice received from another package may have spare capacity, where Go
    allows a high index up to the capacity: for such a slice [None] is
    certain only for a negative or inverted range, and the properties of the
    decoders are stated for ranges within the length. *)
Definition slice {A} (s : list A) (lo hi : Z) : option (list A) :=
  if (0 <=? lo) && (lo <=? hi) && (hi <=? len s)
  then Some (firstn (Z.to_nat (hi - lo)) (skipn (Z.to_nat lo) s))
  else None.

(** [s[lo:]]. *)
Definition slice_from {A} (s : list A) (lo : Z) : option (list A) :=
  slice s lo (len s).

(** A sub-slice shares the array of its parent: storing [w] through the
    window that starts at [lo] rewrites that range of the parent. *)
Definition splice {A} (s : list A) (lo : Z) (w : list A) : list A :=
  firstn (Z.to_nat lo) s ++ w ++ skipn (Z.to_nat lo + length w) s.

(** Run a writer on the window [s[lo:hi]] and give back the parent buffer. *)
Definition on_slice {A} (s : list A) (lo hi : Z)
    (f : list A -> option (list A)) : option (list A) :=
  w <- slice s lo hi ;;
  w' <- f w ;;
  Some (splice s lo w').

(** [copy(dst, src)] copies [min(len(dst), len(src))] elements; the result is
    the new content of [dst]. *)
Definition copy {A} (dst src : list A) : list A :=
  firstn (length dst) src ++ skipn (length src) dst.

(** [binary.BigEndian.PutUint16(b, v)]. *)
Definition PutUint16 (b : list byte) (v : Z) : option (list byte) :=
  if 2 <=? len b
  then Some ([to_byte (Z.shiftr v 8); to_byte v] ++ skipn 2 b)
  else None.

(** [binary.BigEndian.PutUint32(b, v)]. *)
Definition PutUint32 (b : list byte) (v : Z) : option (list byte) :=
  if 4 <=? len b
  then Some ([to_byte (Z.shiftr v 24); to_byte (Z.shiftr v 16);
              to_byte (Z.shiftr v 8); to_byte v] ++ skipn 4 b)
  else None.

(** The eight bytes written by [binary.BigEndian.PutUint64]. *)
Definition be64 (v : Z) : list byte :=
  [to_byte (Z.shiftr v 56); to_byte (Z.shiftr v 48); to_byte (Z.shiftr v 40);
   to_byte (Z.shiftr v 32); to_byte (Z.shiftr v 24); to_byte (Z.shiftr v 16);
   to_byte (Z.shiftr v 8); to_byte v].

(** The [n] low bytes of [v], most significant first; [be64] is the case
    [n = 8] written out. *)
Fixpoint big_endian (n : nat) (v : Z) : list byte :=
  match n with
  | O => []
  | S n' => big_endian n' (v / 256) ++ [to_byte v]
  end.

(** [binary.BigEndian.PutUint64(b, v)]. *)
Definition PutUint64 (b : list byte) (v : Z) : option (list byte) :=
  if 8 <=? len b then Some (be64 v ++ skipn 8 b) else None.

(** [binary.BigEndian.Uint16(b)]. *)
Definition Uint16 (b : list byte) : option Z :=
  match b with
  | b0 :: b1 :: _ => Some (Z.lor b1 (Z.shiftl b0 8))
  | _ => None
  end.

(** [binary.BigEndian.Uint32(b)]. *)
Definition Uint32 (b : list byte) : option Z :=
  match b with
  | b0 :: b1 :: b2 :: b3 :: _ =>
      Some (Z.lor (Z.lor (Z.lor b3 (Z.shiftl b2 8)) (Z.shiftl b1 16))
                  (Z.shiftl b0 24))
  | _ => None
  end.

(** [binary.BigEndian.Uint64(b)]. *)
Definition Uint64 (b : list byte) : option Z :=
  match b with
  | b0 :: b1 :: b2 :: b3 :: b4 :: b5 :: b6 :: b7 :: _ =>
      Some (Z.lor (Z.lor (Z.lor (Z.lor (Z.lor (Z.lor (Z.lor
              b7 (Z.shiftl b6 8)) (Z.shiftl b5 16)) (Z.shiftl b4 24))
              (Z.shiftl b3 32)) (Z.shiftl b2 40)) (Z.shiftl b1 48))
              (Z.shiftl b0 56))
  | _ => None
  end.

(** [bytes.Compare]: byte-lexicographic order, a proper prefix is smaller. *)
Fixpoint bytes_compare (a b : list byte) : comparison :=
  match a, b with
  | [], [] => Eq
  | [], _ :: _ => Lt
  | _ :: _, [] => Gt
  | x :: a', y :: b' =>
      match x ?= y with
      | Eq => bytes_compare a' b'
      | c => c
      end
  end.

Definition bytes_lt (a b : list byte) : Prop := bytes_compare a b = Lt.

(** The verb [%d] of [fmt] on an integer. *)
Definition fmt_d (v : Z) : string := NilZero.string_of_int (Z.to_int v).

(** The verb [%v] of [fmt] on a byte slice: the decimal values between
    brackets, separated by spaces. *)
Fixpoint fmt_v_items (bs : list byte) : string :=
  match bs with
  | [] => EmptyString
  | [b] => fmt_d b
  | b :: rest => String.append (fmt_d b) (String " " (fmt_v_items rest))
  end.

Definition fmt_v (bs : list byte) : string :=
  String "[" (String.append (fmt_v_items bs) "]").

(** What a Go function of type [(T, error)] can do: return a value with a nil
    error, return an error (kept as its message), or panic. *)
Inductive result (A : Type) : Type :=
  | Ok (a : A)
  | Err (msg : string)
  | Panic.
Arguments Ok {A} a.
Arguments Err {A} msg.
Arguments Panic {A}.

Definition rbind {A B} (r : result A) (f : A -> result B) : result B :=
  match r with
  | Ok a => f a
  | Err e => Err e
  | Panic => Panic
  end.

(** A panicking primitive inside a function that returns [(T, error)]. *)
Definition must {A} (o : option A) : result A :=
  match o with
  | Some a => Ok a
  | None => Panic
  end.

Notation "x <~ m ;; k" := (rbind m (fun x => k))
  (at level 61, m at next level, right associativity).

End Go.

(** ** The voxels keyspace *)

Module Voxels.

Import Go.

(** [KeyType] is the first byte of a type-specific index. *)
Inductive KeyType : Set :=
  | KeyUnknown
  | KeyVoxelBlock
  | KeyForwardMap
  | KeyInverseMap
  | KeySpatialMap
  | KeyLabelSpatialMap
  | KeyLabelSizes
  | KeyLabelSurface.

(** The [iota] numbering of the constant block, as [byte(t)]. *)
Definition KeyType_byte (t : KeyType) : byte :=
  match t with
  | KeyUnknown => 0
  | KeyVoxelBlock => 1
  | KeyForwardMap => 2
  | KeyInverseMap => 3
  | KeySpatialMap => 4
  | KeyLabelSpatialMap => 5
  | KeyLabelSizes => 6
  | KeyLabelSurface => 7
  end.

(** A [[]byte] argument that may be [nil] is an [option]. *)
Definition nilable := option (list byte).

(** [NewVoxelBlockIndexByCoord]. *)
Definition NewVoxelBlockIndexByCoord (blockCoord : list byte)
    : option (list byte) :=
  let sz := len blockCoord in
  let index := make (1 + sz) in
  index <- set_index index 0 (KeyType_byte KeyVoxelBlock) ;;
  index <- on_slice index 1 (len index) (fun w => Some (copy w blockCoord)) ;;
  Some index.

(** [NewVoxelBlockIndex]: index = s; [indexBytes] is [blockIndex.Bytes()],
    and the conversion to a string and back keeps the bytes. *)
Definition NewVoxelBlockIndex (indexBytes : list byte) : option (list byte) :=
  let coord := indexBytes in
  NewVoxelBlockIndexByCoord coord.

(** [NewForwardMapIndex]: index = a+b. *)
Definition NewForwardMapIndex (label : list byte) (mapping : Z)
    : option (list byte) :=
  let index := make 17 in
  index <- set_index index 0 (KeyType_byte KeyForwardMap) ;;
  index <- on_slice index 1 9 (fun w => Some (copy w label)) ;;
  index <- on_slice index 9 17 (fun w => PutUint64 w mapping) ;;
  Some index.

(** [NewInverseMapIndex]: index = b+a. *)
Definition NewInverseMapIndex (label : list byte) (mapping : Z)
    : option (list byte) :=
  let index := make 17 in
  index <- set_index index 0 (KeyType_byte KeyInverseMap) ;;
  index <- on_slice index 1 9 (fun w => PutUint64 w mapping) ;;
  index <- on_slice index 9 17 (fun w => Some (copy w label)) ;;
  Some index.

(** [NewSpatialMapIndex]: index = s+a+b; [indexBytes] is
    [blockIndex.Bytes()]. *)
Definition NewSpatialMapIndex (indexBytes : list byte) (label : nilable)
    (mappedLabel : Z) : option (list byte) :=
  let sz := len indexBytes in
  let index := make (1 + sz + 8 + 8) in
  index <- set_index index 0 (KeyType_byte KeySpatialMap) ;;
  let i := 1 + sz in
  index <- on_slice index 1 i (fun w => Some (copy w indexBytes)) ;;
  index <- match label with
           | Some l => on_slice index i (i + 8) (fun w => Some (copy w l))
           | None => Some index
           end ;;
  index <- on_slice index (i + 8) (i + 16) (fun w => PutUint64 w mappedLabel) ;;
  Some index.

(** [UpdateSpatialMapIndex] writes into the receiver's buffer; the result is
    the content of that buffer afterwards. *)
Definition UpdateSpatialMapIndex (index : list byte) (label : nilable)
    (mappedLabel : Z) : option (list byte) :=
  let spatialSize := len index - 17 in
  let i := 1 + spatialSize in
  index <- match label with
           | Some l => on_slice index i (i + 8) (fun w => Some (copy w l))
           | None => Some index
           end ;;
  index <- on_slice index (i + 8) (i + 16) (fun w => PutUint64 w mappedLabel) ;;
  Some index.

(** [NewLabelSpatialMapIndex]. *)
Definition NewLabelSpatialMapIndex (label : Z) (blockBytes : list byte)
    : option (list byte) :=
  let sz := len blockBytes in
  let index := make (1 + 8 + sz) in
  index <- set_index index 0 (KeyType_byte KeyLabelSpatialMap) ;;
  index <- on_slice index 1 9 (fun w => PutUint64 w label) ;;
  index <- on_slice index 9 (len index) (fun w => Some (copy w blockBytes)) ;;
  Some index.

(** [NewLabelSizesIndex]: index = v+b. *)
Definition NewLabelSizesIndex (size label : Z) : option (list byte) :=
  let index := make 17 in
  index <- set_index index 0 (KeyType_byte KeyLabelSizes) ;;
  index <- on_slice index 1 9 (fun w => PutUint64 w size) ;;
  index <- on_slice index 9 17 (fun w => PutUint64 w label) ;;
  Some index.

(** [NewLabelSurfaceIndex]. *)
Definition NewLabelSurfaceIndex (label : Z) : option (list byte) :=
  let index := make (1 + 8) in
  index <- set_index index 0 (KeyType_byte KeyLabelSurface) ;;
  index <- on_slice index 1 9 (fun w => PutUint64 w label) ;;
  Some index.

(** The content of the label field after [if label != nil { copy(index[i:i+8], label) }]. *)
Definition label_field (old : list byte) (label : nilable) : list byte :=
  match label with
  | Some l => copy old l
  | None => old
  end.

(** [built t index]: [index] is returned by the builder of the key space
    [t]. *)
Inductive built : KeyType -> list byte -> Prop :=
  | built_VoxelBlock coord index :
      NewVoxelBlockIndex coord = Some index -> built KeyVoxelBlock index
  | built_ForwardMap label mapping index :
      NewForwardMapIndex label mapping = Some index ->
      built KeyForwardMap index
  | built_InverseMap label mapping index :
      NewInverseMapIndex label mapping = Some index ->
      built KeyInverseMap index
  | built_SpatialMap coord label mappedLabel index :
      NewSpatialMapIndex coord label mappedLabel = Some index ->
      built KeySpatialMap index
  | built_LabelSpatialMap label blockBytes index :
      NewLabelSpatialMapIndex label blockBytes = Some index ->
      built KeyLabelSpatialMap index
  | built_LabelSizes size label index :
      NewLabelSizesIndex size label = Some index ->
      built KeyLabelSizes index
  | built_LabelSurface label index :
      NewLabelSurfaceIndex label = Some index ->
      built KeyLabelSurface index.

(** *** Decoders

    [storage.DataContext.IndexFromKey], [dvid.IndexZYX.IndexFromBytes] and
    the constant [dvid.IndexZYXSize] live in other packages; the decoders are
    defined over any implementation of them. *)

Section Decoders.

Variable IndexFromKey : list byte -> result (list byte).
Variable IndexZYX : Type.
Variable IndexFromBytes : list byte -> result IndexZYX.
Variable IndexZYXSize : Z.

Definition newline : string := String (ascii_of_nat 10) EmptyString.

(** [fmt.Errorf("Expected <name> index, got %d byte instead", index[0])]. *)
Definition mismatch (name : string) (got : byte) : string :=
  String.append "Expected "
    (String.append name
       (String.append " index, got " (String.append (fmt_d got) " byte instead"))).

(** [DecodeVoxelBlockKey]. *)
Definition DecodeVoxelBlockKey (key : list byte) : result IndexZYX :=
  index <~ IndexFromKey key ;;
  b0 <~ must (Go.index index 0) ;;
  if negb (b0 =? KeyType_byte KeyVoxelBlock)
  then Err (mismatch "KeyVoxelBlock" b0)
  else
    rest <~ must (slice_from index 1) ;;
    match IndexFromBytes rest with
    | Ok zyx => Ok zyx
    | Err e =>
        Err (String.append "Cannot recover ZYX index from key "
               (String.append (fmt_v key)
                  (String.append ": " (String.append e newline))))
    | Panic => Panic
    end.

(** [DecodeSpatialMapKey]. *)
Definition DecodeSpatialMapKey (key : list byte) : result (list byte * Z) :=
  index <~ IndexFromKey key ;;
  b0 <~ must (Go.index index 0) ;;
  if negb (b0 =? KeyType_byte KeySpatialMap)
  then Err (mismatch "KeySpatialMap" b0)
  else
    let labelOffset := 1 + IndexZYXSize in
    label <~ must (slice index labelOffset (labelOffset + 8)) ;;
    w <~ must (slice index (labelOffset + 8) (labelOffset + 16)) ;;
    mappedLabel <~ must (Uint64 w) ;;
    Ok (label, mappedLabel).

(** [DecodeLabelSpatialMapKey]. *)
Definition DecodeLabelSpatialMapKey (key : list byte)
    : result (Z * list byte) :=
  index <~ IndexFromKey key ;;
  b0 <~ must (Go.index index 0) ;;
  if negb (b0 =? KeyType_byte KeyLabelSpatialMap)
  then Err (mismatch "KeyLabelSpatialMap" b0)
  else
    w <~ must (slice index 1 9) ;;
    label <~ must (Uint64 w) ;;
    blockBytes <~ must (slice_from index 9) ;;
    Ok (label, blockBytes).

(** [LabelFromLabelSizesKey]. *)
Definition LabelFromLabelSizesKey (key : list byte) : result Z :=
  indexBytes <~ IndexFromKey key ;;
  w <~ must (slice indexBytes 9 17) ;;
  label <~ must (Uint64 w) ;;
  Ok label.

End Decoders.

End Voxels.

(** ** Identifiers of the [dvid] package *)

Module Dvid.

Import Go.

Definition LocalIDSize : Z := 2.
Definition LocalID32Size : Z := 4.

Definition MaxLocalID : Z := 0xFFFF.
Definition MaxLocalID32 : Z := 0xFFFFFFFF.

(** A [LocalID] is a [uint16], the 32-bit kinds are [uint32]. *)
Definition is_uint16 (v : Z) : Prop := 0 <= v <= MaxLocalID.
Definition is_uint32 (v : Z) : Prop := 0 <= v <= MaxLocalID32.

(** [LocalID.Bytes]. *)
Definition LocalID_Bytes (id : Z) : option (list byte) :=
  let buf := make LocalIDSize in
  PutUint16 buf id.

(** [LocalIDFromBytes] returns the id and the number of bytes used. *)
Definition LocalIDFromBytes (b : list byte) : option (Z * Z) :=
  v <- Uint16 b ;; Some (v, LocalIDSize).

(** [LocalID32.Bytes]. *)
Definition LocalID32_Bytes (id : Z) : option (list byte) :=
  let buf := make LocalID32Size in
  PutUint32 buf id.

(** [LocalID32FromBytes] returns the id and the number of bytes used. *)
Definition LocalID32FromBytes (b : list byte) : option (Z * Z) :=
  v <- Uint32 b ;; Some (v, LocalID32Size).

(** [InstanceID.Bytes]. *)
Definition InstanceID_Bytes (id : Z) : option (list byte) :=
  let buf := make LocalID32Size in
  PutUint32 buf id.

(** [InstanceIDFromBytes] has the single result [InstanceID]. *)
Definition InstanceIDFromBytes (b : list byte) : option Z :=
  Uint32 b.

(** [RepoID.Bytes]. *)
Definition RepoID_Bytes (id : Z) : option (list byte) :=
  let buf := make LocalID32Size in
  PutUint32 buf id.

(** [RepoIDFromBytes] has the single result [RepoID]. *)
Definition RepoIDFromBytes (b : list byte) : option Z :=
  Uint32 b.

(** [VersionID.Bytes]. *)
Definition VersionID_Bytes (id : Z) : option (list byte) :=
  let buf := make LocalID32Size in
  PutUint32 buf id.

(** [VersionIDFromBytes] has the single result [VersionID]. *)
Definition VersionIDFromBytes (b : list byte) : option Z :=
  Uint32 b.

(** *** UUID *)

(** The lower-case digit table of [fmt]. *)
Definition ldigits : list ascii :=
  ["0"; "1"; "2"; "3"; "4"; "5"; "6"; "7";
   "8"; "9"; "a"; "b"; "c"; "d"; "e"; "f"]%char.

Definition hexdigit (n : Z) : ascii := nth (Z.to_nat n) ldigits "0"%char.

(** The verb [%x] on a byte slice: two digits per byte, high nibble first. *)
Fixpoint hex (bs : list byte) : string :=
  match bs with
  | [] => EmptyString
  | b :: rest =>
      String (hexdigit (Z.shiftr b 4)) (String (hexdigit (Z.land b 15)) (hex rest))
  end.

Fixpoint zeros (n : nat) : string :=
  match n with
  | O => EmptyString
  | S n' => String "0" (zeros n')
  end.

(** [fmt.Sprintf("%032x", b)]: [%x] padded on the left with zeros to a width
    of 32. *)
Definition Sprintf_032x (bs : list byte) : string :=
  let s := hex bs in
  String.append (zeros (32 - String.length s)) s.

Definition UUID := string.
Definition NilUUID : UUID := EmptyString.

(** [NewUUID]; [u] is what [uuid.NewUUID()] returned, [None] for [nil]. *)
Definition NewUUID (u : option (list byte)) : UUID :=
  match u with
  | None => EmptyString
  | Some bs =>
      if negb (len bs =? 16) then EmptyString else Sprintf_032x bs
  end.

(** Reading a rendering back: the value of a hexadecimal digit and of a
    string of digit pairs. *)
Definition unhexdigit (c : ascii) : option Z :=
  let n := Z.of_nat (nat_of_ascii c) in
  if (48 <=? n) && (n <=? 57) then Some (n - 48)
  else if (97 <=? n) && (n <=? 102) then Some (n - 87)
  else None.

Fixpoint unhex (s : string) : option (list byte) :=
  match s with
  | EmptyString => Some []
  | String hi (String lo rest) =>
      h <- unhexdigit hi ;;
      l <- unhexdigit lo ;;
      bs <- unhex rest ;;
      Some (Z.lor (Z.shiftl h 4) l :: bs)
  | String _ EmptyString => None
  end.

Fixpoint all_hex (s : string) : bool :=
  match s with
  | EmptyString => true
  | String c rest =>
      match unhexdigit c with
      | Some _ => all_hex rest
      | None => false
      end
  end.

End Dvid.

(** ** Draining the active cgo routines *)

Module Cgo.

(** What one evaluation of the loop condition reads: [cgoNumActive] and
    [len(cgoActive)].  The counter goroutine and the cgo routines run
    concurrently, so the readings are given by the environment. *)
Record reading : Set := { cgoNumActive : Z; queued : Z }.

Definition idle (r : reading) : bool :=
  (cgoNumActive r =? 0) && (queued r =? 0).

(** The state of the caller when [BlockOnActiveCgo] returns: the local
    [waits] and the seconds spent in [time.Sleep]. *)
Record outcome : Set := { waits : Z; slept : Z }.

(** The [for] loop of [BlockOnActiveCgo]; [k] counts the evaluations of the
    condition, [env k] is what the [k]-th evaluation reads.  [None] when the
    fuel is used up before the loop returns. *)
Fixpoint poll (fuel : nat) (env : nat -> reading) (k : nat) (st : outcome)
    : option outcome :=
  match fuel with
  | O => None
  | S fuel' =>
      if idle (env k) || (waits st >=? 5)
      then Some st
      else poll fuel' env (S k) {| waits := waits st + 1; slept := slept st + 1 |}
  end.

(** [BlockOnActiveCgo], once it holds the [startCgo] mutex. *)
Definition BlockOnActiveCgo (fuel : nat) (env : nat -> reading)
    : option outcome :=
  poll fuel env 0%nat {| waits := 0; slept := 0 |}.

End Cgo.

(** ** The local server: storage engines and handler tokens *)

Module Server.

Import Go.

(** A storage engine value, as far as [SetupEngines] looks at it: which of
    the interfaces its dynamic type implements. *)
Record KVEngine : Set := {
  implOrderedKeyValueDB : bool;
  implOrderedKeyValueSetter : bool;
  implOrderedKeyValueGetter : bool
}.

Record GraphEngine : Set := {
  implGraphDB : bool;
  implGraphSetter : bool;
  implGraphGetter : bool
}.

(** The package variable [Engines]; a nil interface is [None]. *)
Record EnginesT : Set := {
  kvEngine : option KVEngine;
  kvDB : option KVEngine;
  kvSetter : option KVEngine;
  kvGetter : option KVEngine;
  graphEngine : option GraphEngine;
  graphDB : option GraphEngine;
  graphSetter : option GraphEngine;
  graphGetter : option GraphEngine;
  setup : bool
}.

(** The comma-ok type assertion [e.(T)]: the value and [true] when the
    dynamic type of [e] implements [T], else nil and [false]. *)
Definition assert_type {E} (impl : E -> bool) (e : option E)
    : option E * bool :=
  match e with
  | Some x => if impl x then (Some x, true) else (None, false)
  | None => (None, false)
  end.

(** Go's [error]: nil or a message. *)
Definition error := option string.

(** [fmt.Errorf("Database at %v <what>", path)]. *)
Definition database_at (path what : string) : error :=
  Some (String.append "Database at " (String.append path what)).

(** Assignments to the fields of [Engines]. *)
Definition set_kvEngine (v : option KVEngine) (E : EnginesT) : EnginesT :=
  {| kvEngine := v; kvDB := kvDB E; kvSetter := kvSetter E;
     kvGetter := kvGetter E; graphEngine := graphEngine E;
     graphDB := graphDB E; graphSetter := graphSetter E;
     graphGetter := graphGetter E; setup := setup E |}.

Definition set_kvDB (v : option KVEngine) (E : EnginesT) : EnginesT :=
  {| kvEngine := kvEngine E; kvDB := v; kvSetter := kvSetter E;
     kvGetter := kvGetter E; graphEngine := graphEngine E;
     graphDB := graphDB E; graphSetter := graphSetter E;
     graphGetter := graphGetter E; setup := setup E |}.

Definition set_kvSetter (v : option KVEngine) (E : EnginesT) : EnginesT :=
  {| kvEngine := kvEngine E; kvDB := kvDB E; kvSetter := v;
     kvGetter := kvGetter E; graphEngine := graphEngine E;
     graphDB := graphDB E; graphSetter := graphSetter E;
     graphGetter := graphGetter E; setup := setup E |}.

Definition set_kvGetter (v : option KVEngine) (E : EnginesT) : EnginesT :=
  {| kvEngine := kvEngine E; kvDB := kvDB E; kvSetter := kvSetter E;
     kvGetter := v; graphEngine := graphEngine E;
     graphDB := graphDB E; graphSetter := graphSetter E;
     graphGetter := graphGetter E; setup := setup E |}.

Definition set_graphEngine (v : option GraphEngine) (E : EnginesT)
    : EnginesT :=
  {| kvEngine := kvEngine E; kvDB := kvDB E; kvSetter := kvSetter E;
     kvGetter := kvGetter E; graphEngine := v;
     graphDB := graphDB E; graphSetter := graphSetter E;
     graphGetter := graphGetter E; setup := setup E |}.

Definition set_graphDB (v : option GraphEngine) (E : EnginesT) : EnginesT :=
  {| kvEngine := kvEngine E; kvDB := kvDB E; kvSetter := kvSetter E;
     kvGetter := kvGetter E; graphEngine := graphEngine E;
     graphDB := v; graphSetter := graphSetter E;
     graphGetter := graphGetter E; setup := setup E |}.

Definition set_graphSetter (v : option GraphEngine) (E : EnginesT)
    : EnginesT :=
  {| kvEngine := kvEngine E; kvDB := kvDB E; kvSetter := kvSetter E;
     kvGetter := kvGetter E; graphEngine := graphEngine E;
     graphDB := graphDB E; graphSetter := v;
     graphGetter := graphGetter E; setup := setup E |}.

Definition set_graphGetter (v : option GraphEngine) (E : EnginesT)
    : EnginesT :=
  {| kvEngine := kvEngine E; kvDB := kvDB E; kvSetter := kvSetter E;
     kvGetter := kvGetter E; graphEngine := graphEngine E;
     graphDB := graphDB E; graphSetter := graphSetter E;
     graphGetter := v; setup := setup E |}.

Definition set_setup (v : bool) (E : EnginesT) : EnginesT :=
  {| kvEngine := kvEngine E; kvDB := kvDB E; kvSetter := kvSetter E;
     kvGetter := kvGetter E; graphEngine := graphEngine E;
     graphDB := graphDB E; graphSetter := graphSetter E;
     graphGetter := graphGetter E; setup := v |}.

Section Setup.

Variable Config : Type.
(** [local.NewKeyValueStore] and [NewGraphStore] are defined elsewhere. *)
Variable NewKeyValueStore :
  string -> bool -> Config -> option KVEngine * error.
Variable NewGraphStore :
  string -> bool -> Config -> option KVEngine -> option GraphEngine * error.

(** [SetupEngines]: the new value of [Engines] and the returned error. *)
Definition SetupEngines (path : string) (config : Config) (E : EnginesT)
    : EnginesT * error :=
  let create := true in
  let '(e, err) := NewKeyValueStore path create config in
  let E := set_kvEngine e E in
  match err with
  | Some _ => (E, err)
  | None =>
  let '(v, ok) := assert_type implOrderedKeyValueDB (kvEngine E) in
  let E := set_kvDB v E in
  if negb ok
  then (E, database_at path " is not a valid ordered key-value database")
  else
  let '(v, ok) := assert_type implOrderedKeyValueSetter (kvEngine E) in
  let E := set_kvSetter v E in
  if negb ok
  then (E, database_at path " is not a valid ordered key-value setter")
  else
  let '(v, ok) := assert_type implOrderedKeyValueGetter (kvEngine E) in
  let E := set_kvGetter v E in
  if negb ok
  then (E, database_at path " is not a valid ordered key-value getter")
  else
  let '(g, err) := NewGraphStore path create config (kvDB E) in
  let E := set_graphEngine g E in
  match err with
  | Some _ => (E, err)
  | None =>
  let '(v, ok) := assert_type implGraphDB (graphEngine E) in
  let E := set_graphDB v E in
  if negb ok
  then (E, database_at path " cannot support a graph database")
  else
  let '(v, ok) := assert_type implGraphSetter (graphEngine E) in
  let E := set_graphSetter v E in
  if negb ok
  then (E, database_at path " cannot support a graph setter")
  else
  let '(v, ok) := assert_type implGraphGetter (graphEngine E) in
  let E := set_graphGetter v E in
  if negb ok
  then (E, database_at path " cannot support a graph getter")
  else
  let E := set_setup true E in
  (E, None)
  end
  end.

End Setup.

(** The interfaces probed by [SetupEngines] and the text of the error
    returned for each. *)
Inductive kv_capability : Set :=
  | OrderedKeyValueDB
  | OrderedKeyValueSetter
  | OrderedKeyValueGetter.

Inductive graph_capability : Set :=
  | GraphDB
  | GraphSetter
  | GraphGetter.

Definition kv_impl (c : kv_capability) : KVEngine -> bool :=
  match c with
  | OrderedKeyValueDB => implOrderedKeyValueDB
  | OrderedKeyValueSetter => implOrderedKeyValueSetter
  | OrderedKeyValueGetter => implOrderedKeyValueGetter
  end.

Definition graph_impl (c : graph_capability) : GraphEngine -> bool :=
  match c with
  | GraphDB => implGraphDB
  | GraphSetter => implGraphSetter
  | GraphGetter => implGraphGetter
  end.

Definition kv_text (c : kv_capability) : string :=
  match c with
  | OrderedKeyValueDB => " is not a valid ordered key-value database"
  | OrderedKeyValueSetter => " is not a valid ordered key-value setter"
  | OrderedKeyValueGetter => " is not a valid ordered key-value getter"
  end.

Definition graph_text (c : graph_capability) : string :=
  match c with
  | GraphDB => " cannot support a graph database"
  | GraphSetter => " cannot support a graph setter"
  | GraphGetter => " cannot support a graph getter"
  end.

(** Whether the assertion [e.(T)] succeeds. *)
Definition has {E} (impl : E -> bool) (e : option E) : bool :=
  snd (assert_type impl e).

(** *** The handler token pool

    [HandlerToken] is a buffered channel of [MaxChunkHandlers] slots.  A
    channel operation that cannot proceed blocks its goroutine: it is not
    enabled in that state, which is [None] here. *)
Record chan : Set := { capacity : Z; buffer : list Z }.

(** [make(chan int, n)]. *)
Definition make_chan (n : Z) : chan := {| capacity := n; buffer := [] |}.

(** [len(c)]. *)
Definition chan_len (c : chan) : Z := len (buffer c).

(** The channel of capacity [N] that holds [n] tokens. *)
Definition tokens (N : Z) (n : nat) : chan :=
  {| capacity := N; buffer := repeat 1 n |}.

(** [c <- v]: enabled while the buffer is not full. *)
Definition send (c : chan) (v : Z) : option chan :=
  if chan_len c <? capacity c
  then Some {| capacity := capacity c; buffer := buffer c ++ [v] |}
  else None.

(** [<-c]: enabled while the buffer is not empty. *)
Definition recv (c : chan) : option (Z * chan) :=
  match buffer c with
  | v :: rest => Some (v, {| capacity := capacity c; buffer := rest |})
  | [] => None
  end.

(** The loop [for i := 0; i < MaxChunkHandlers; i++ { HandlerToken <- 1 }]
    of [init], from the current [i]. *)
Fixpoint fill_tokens (fuel : nat) (MaxChunkHandlers i : Z) (c : chan)
    : option chan :=
  match fuel with
  | O => None
  | S fuel' =>
      if i <? MaxChunkHandlers
      then c' <- send c 1 ;; fill_tokens fuel' MaxChunkHandlers (i + 1) c'
      else Some c
  end.

(** [HandlerToken] after the variable initialisation and [init]. *)
Definition HandlerToken_init (fuel : nat) (MaxChunkHandlers : Z)
    : option chan :=
  fill_tokens fuel MaxChunkHandlers 0 (make_chan MaxChunkHandlers).

(** Modelled from the spec: the acquisition of a worker token, which the
    chunk handlers of the data type packages do (see [ProcessChunk], not in
    these files): a worker takes a token out of the bounded queue and blocks
    while the pool is exhausted, that is [<-HandlerToken]. *)
Definition acquire (c : chan) : option chan :=
  vc <- recv c ;; Some (snd vc).

(** Modelled from the spec: the release of a worker token by the same
    handlers on completion: the token goes back into the queue, that is
    [HandlerToken <- 1]. *)
Definition release (c : chan) : option chan := send c 1.

(** [n] acquisitions one after the other, in any order of the workers. *)
Fixpoint acquire_n (n : nat) (c : chan) : option chan :=
  match n with
  | O => Some c
  | S n' => c' <- acquire c ;; acquire_n n' c'
  end.

End Server.

(** ** The accounting of active cgo routines *)

Module CgoTracker.

Import Go.

Definition MaxNumberConcurrentCgo : Z := 10000.

(** [cgoStatus] and its two constants. *)
Definition cgoStarted : Z := 1.
Definition cgoStopped : Z := -1.

(** The buffered channel [cgoActive] (oldest message first), the status the
    goroutine of [init] has taken out of the channel and not yet applied,
    and the counter [cgoNumActive]. *)
Record state : Set := {
  cgoActive : list Z;
  received : option Z;
  cgoNumActive : Z
}.

(** After [init]: an empty channel, the goroutine waiting on it, the counter
    at its zero value. *)
Definition initial : state :=
  {| cgoActive := []; received := None; cgoNumActive := 0 |}.

(** [cgoActive <- v]: enabled while the buffer is not full. *)
Definition send_status (v : Z) (s : state) : option state :=
  if len (cgoActive s) <? MaxNumberConcurrentCgo
  then Some {| cgoActive := cgoActive s ++ [v]; received := received s;
               cgoNumActive := cgoNumActive s |}
  else None.

(** [StartCgo], when no [BlockOnActiveCgo] holds the [startCgo] mutex. *)
Definition StartCgo (s : state) : option state := send_status cgoStarted s.

(** [StopCgo]. *)
Definition StopCgo (s : state) : option state := send_status cgoStopped s.

(** The goroutine of [init] evaluates [<-cgoActive]: enabled when it is at
    the head of its loop and a message is queued. *)
Definition receive (s : state) : option state :=
  match received s, cgoActive s with
  | None, v :: rest =>
      Some {| cgoActive := rest; received := Some v;
              cgoNumActive := cgoNumActive s |}
  | _, _ => None
  end.

(** The goroutine then runs the case of the [switch]: a separate step, so
    that other goroutines can run between the receive and the update of the
    counter; a status that is neither constant matches no case. *)
Definition tally (s : state) : option state :=
  match received s with
  | Some v =>
      Some {| cgoActive := cgoActive s; received := None;
              cgoNumActive :=
                if v =? cgoStarted then cgoNumActive s + 1
                else if v =? cgoStopped then cgoNumActive s - 1
                else cgoNumActive s |}
  | None => None
  end.

(** What the goroutines of the process do to the tracker, in the order in
    which the steps happen. *)
Inductive event : Set := Start | Stop | Receive | Tally.

Definition step (s : state) (e : event) : option state :=
  match e with
  | Start => StartCgo s
  | Stop => StopCgo s
  | Receive => receive s
  | Tally => tally s
  end.

Fixpoint run (s : state) (es : list event) : option state :=
  match es with
  | [] => Some s
  | e :: es' => s' <- step s e ;; run s' es'
  end.

Definition same_event (e x : event) : bool :=
  match e, x with
  | Start, Start | Stop, Stop | Receive, Receive | Tally, Tally => true
  | _, _ => false
  end.

Definition occurrences (e : event) (es : list event) : Z :=
  len (filter (same_event e) es).

Definition sum (l : list Z) : Z := fold_right Z.add 0 l.

(** What a status adds to the counter once it is applied. *)
Definition effect (v : Z) : Z :=
  if v =? cgoStarted then 1 else if v =? cgoStopped then -1 else 0.

(** What the status taken out of the channel will still add. *)
Definition pending (s : state) : Z :=
  match received s with
  | Some v => effect v
  | None => 0
  end.

(** Every status in flight is one of the two constants. *)
Definition signed (q : list Z) : Prop :=
  Forall (fun v => v = cgoStarted \/ v = cgoStopped) q.

End CgoTracker.

(** ** The local server: shutdown, load sampling, tiers, the datastore *)

Module ServerLife.

Import Go.

(** The waiting loop of [Shutdown]: [tok k] is [len(HandlerToken)] at the
    [k]-th pass, the result the local [waits], one second slept for each
    increment. *)
Fixpoint wait_handlers (fuel : nat) (MaxChunkHandlers : Z) (tok : nat -> Z)
    (k : nat) (waits : Z) : option Z :=
  match fuel with
  | O => None
  | S fuel' =>
      let active := MaxChunkHandlers - tok k in
      if waits >=? 20 then Some waits
      else if active >? 0
           then wait_handlers fuel' MaxChunkHandlers tok (S k) (waits + 1)
           else Some waits
  end.

(** [Shutdown], as far as it waits: the loop on the handler tokens, then
    [dvid.BlockOnActiveCgo()]; the shutdown of the datastore service and of
    the storage engines are calls into other packages.  The result is the
    number of seconds slept in the two loops. *)
Definition Shutdown (fuel : nat) (MaxChunkHandlers : Z) (tok : nat -> Z)
    (env : nat -> Cgo.reading) : option (Z * Z) :=
  waits <- wait_handlers fuel MaxChunkHandlers tok 0%nat 0 ;;
  r <- Cgo.BlockOnActiveCgo fuel env ;;
  Some (waits, Cgo.slept r).

(** The variables of the load sampler of [init]: the local [ticks] and the
    package variables [ActiveHandlers] and [curActiveHandlers]. *)
Record sampler : Set := {
  ticks : Z;
  ActiveHandlers : Z;
  curActiveHandlers : Z
}.

Definition sampler_initial : sampler :=
  {| ticks := 0; ActiveHandlers := 0; curActiveHandlers := 0 |}.

(** One pass of the sampling goroutine after [<-loadCheckTimer];
    [lenTokens] is [len(HandlerToken)] at that moment.  Go's [%] is the
    remainder of the truncated division. *)
Definition sample (MaxChunkHandlers lenTokens : Z) (m : sampler) : sampler :=
  let ticks' := Z.rem (ticks m + 1) 100 in
  let m1 :=
    if ticks' =? 0
    then {| ticks := ticks'; ActiveHandlers := curActiveHandlers m;
            curActiveHandlers := 0 |}
    else {| ticks := ticks'; ActiveHandlers := ActiveHandlers m;
            curActiveHandlers := curActiveHandlers m |} in
  let numHandlers := MaxChunkHandlers - lenTokens in
  if numHandlers >? curActiveHandlers m1
  then {| ticks := ticks m1; ActiveHandlers := ActiveHandlers m1;
          curActiveHandlers := numHandlers |}
  else m1.

(** The sampler after the readings [lens], the oldest first. *)
Definition sample_all (MaxChunkHandlers : Z) (lens : list Z) (m : sampler)
    : sampler :=
  fold_left (fun m l => sample MaxChunkHandlers l m) lens m.

(** The three tiers set by [SetupTiers]: each wraps [Engines.kvDB]. *)
Record tiers : Set := {
  MetaData : option Server.KVEngine;
  SmallData : option Server.KVEngine;
  BigData : option Server.KVEngine
}.

(** [SetupTiers]. *)
Definition SetupTiers (E : Server.EnginesT) : tiers :=
  {| MetaData := Server.kvDB E; SmallData := Server.kvDB E;
     BigData := Server.kvDB E |}.

(** The fields of [runningService] that [OpenDatastore] touches; a nil
    [*datastore.Service] is [None]. *)
Record running (DS : Type) : Type := {
  Service : option DS;
  ErrorLogDir : string
}.
Arguments Service {DS} r.
Arguments ErrorLogDir {DS} r.

Definition already_open : string :=
  "Cannot create new server. A DVID process can serve only one datastore.".

Section Open.

Variable DS : Type.
(** [datastore.Open] and [filepath.Dir] are defined elsewhere; an
    [*datastore.OpenError] is kept as its message. *)
Variable datastore_Open : string -> option DS * option string.
Variable filepath_Dir : string -> string.

(** [OpenDatastore]: the new [runningService], whether [&runningService] is
    returned (else nil), and the error. *)
Definition OpenDatastore (datastorePath : string) (rs : running DS)
    : running DS * bool * option string :=
  match Service rs with
  | Some _ => (rs, false, Some already_open)
  | None =>
      let '(svc, openErr) := datastore_Open datastorePath in
      let rs := {| Service := svc; ErrorLogDir := ErrorLogDir rs |} in
      match openErr with
      | Some _ => (rs, false, openErr)
      | None =>
          let rs := {| Service := Service rs;
                       ErrorLogDir := filepath_Dir datastorePath |} in
          (rs, true, None)
      end
  end.

(** [DatastoreService]. *)
Definition DatastoreService (rs : running DS) : option DS := Service rs.

End Open.

End ServerLife.

(** * Properties *)

(** ** Slices and [copy] *)

Section SliceFacts.

Import Go.
Context {A : Type}.
Implicit Types a w c s : list A.

Lemma len_app a c : len (a ++ c) = len a + len c.
Proof. unfold len. rewrite length_app. lia. Qed.

Lemma len_nonneg s : 0 <= len s.
Proof. unfold len. lia. Qed.

Lemma slice_window a w c lo hi :
  lo = len a -> hi = len a + len w ->
  slice (a ++ w ++ c) lo hi = Some w.
Proof.
  intros -> ->. unfold slice.
  rewrite !len_app.
  pose proof (len_nonneg a). pose proof (len_nonneg w).
  pose proof (len_nonneg c).
  replace ((0 <=? len a) && (len a <=? len a + len w)
           && (len a + len w <=? len a + (len w + len c))) with true
    by (symmetry; rewrite !andb_true_iff; repeat split; apply Z.leb_le; lia).
  f_equal. unfold len. rewrite Nat2Z.id.
  rewrite skipn_app, skipn_all, Nat.sub_diag. simpl.
  replace (Z.to_nat (Z.of_nat (length a) + Z.of_nat (length w) - Z.of_nat (length a)))
    with (length w + 0)%nat by lia.
  rewrite firstn_app_2. simpl. apply app_nil_r.
Qed.

Lemma splice_window a w c w' lo :
  lo = len a -> length w' = length w ->
  splice (a ++ w ++ c) lo w' = a ++ w' ++ c.
Proof.
  intros -> Hl. unfold splice, len. rewrite Nat2Z.id.
  rewrite firstn_app, firstn_all, Nat.sub_diag. simpl. rewrite app_nil_r.
  f_equal. f_equal. rewrite Hl.
  rewrite app_assoc, <- length_app, skipn_app, skipn_all, Nat.sub_diag.
  reflexivity.
Qed.

Lemma on_slice_window a w c w' lo hi f :
  lo = len a -> hi = len a + len w ->
  f w = Some w' -> length w' = length w ->
  on_slice (a ++ w ++ c) lo hi f = Some (a ++ w' ++ c).
Proof.
  intros Hlo Hhi Hf Hl. unfold on_slice.
  rewrite (slice_window a w c lo hi Hlo Hhi). simpl. rewrite Hf. simpl.
  now rewrite (splice_window a w c w' lo Hlo Hl).
Qed.

Lemma copy_length (dst src : list A) : length (copy dst src) = length dst.
Proof.
  unfold copy. rewrite length_app, length_firstn, length_skipn. lia.
Qed.

Lemma copy_same_length (dst src : list A) :
  length src = length dst -> copy dst src = src.
Proof.
  intros H. unfold copy.
  rewrite firstn_all2, skipn_all2 by lia. apply app_nil_r.
Qed.

End SliceFacts.

Section BufferFacts.

Import Go.

Lemma make_succ n : 0 <= n -> make (1 + n) = 0 :: make n.
Proof.
  intros H. unfold make.
  replace (Z.to_nat (1 + n)) with (S (Z.to_nat n)) by lia. reflexivity.
Qed.

Lemma make_add n m : 0 <= n -> 0 <= m -> make (n + m) = make n ++ make m.
Proof.
  intros Hn Hm. unfold make. rewrite Z2Nat.inj_add by lia. apply repeat_app.
Qed.

Lemma make_length n : 0 <= n -> len (make n) = n.
Proof. intros H. unfold len, make. rewrite repeat_length. lia. Qed.

Lemma set_index_head {A} (x y : A) s : set_index (x :: s) 0 y = Some (y :: s).
Proof.
  unfold set_index, len. simpl length.
  replace (0 <? Z.of_nat (S (length s))) with true
    by (symmetry; apply Z.ltb_lt; lia).
  reflexivity.
Qed.

Lemma be64_length v : length (be64 v) = 8%nat.
Proof. reflexivity. Qed.

Lemma PutUint64_window w v : length w = 8%nat -> PutUint64 w v = Some (be64 v).
Proof.
  intros H. unfold PutUint64, len. rewrite H. simpl Z.leb. cbv iota.
  rewrite skipn_all2 by lia. now rewrite app_nil_r.
Qed.

End BufferFacts.

(** ** Closed forms of the spatial map index *)

Section SpatialMap.

Import Go Voxels.

Lemma label_field_length old label :
  length (label_field old label) = length old.
Proof. destruct label; simpl; [apply copy_length | reflexivity]. Qed.

Lemma write_label_and_mapping (pre lab mp : list byte) label m i :
  i = len pre -> length lab = 8%nat -> length mp = 8%nat ->
  (index <- match label with
            | Some l => on_slice (pre ++ lab ++ mp) i (i + 8)
                          (fun w => Some (copy w l))
            | None => Some (pre ++ lab ++ mp)
            end ;;
   index <- on_slice index (i + 8) (i + 16) (fun w => PutUint64 w m) ;;
   Some index)
  = Some (pre ++ label_field lab label ++ be64 m).
Proof.
  intros Hi Hlab Hmp. unfold len in Hi.
  assert (H1 : match label with
               | Some l => on_slice (pre ++ lab ++ mp) i (i + 8)
                             (fun w => Some (copy w l))
               | None => Some (pre ++ lab ++ mp)
               end = Some (pre ++ label_field lab label ++ mp)).
  { destruct label as [l|]; simpl; [|reflexivity].
    apply on_slice_window; auto.
    - unfold len. rewrite Hlab. lia.
    - apply copy_length. }
  rewrite H1. simpl.
  pose proof (label_field_length lab label) as Hf.
  replace (pre ++ label_field lab label ++ mp)
    with ((pre ++ label_field lab label) ++ mp ++ [])
    by now rewrite app_nil_r, <- app_assoc.
  rewrite (on_slice_window (pre ++ label_field lab label) mp [] (be64 m)).
  - cbn [bind]. now rewrite app_nil_r, <- app_assoc.
  - rewrite len_app. unfold len. rewrite Hf, Hlab. lia.
  - rewrite len_app. unfold len. rewrite Hf, Hlab, Hmp. lia.
  - now apply PutUint64_window.
  - now rewrite Hmp.
Qed.

Lemma NewSpatialMapIndex_closed coord label m :
  NewSpatialMapIndex coord label m
  = Some (KeyType_byte KeySpatialMap
            :: coord ++ label_field (make 8) label ++ be64 m).
Proof.
  unfold NewSpatialMapIndex.
  pose proof (len_nonneg coord) as Hc.
  replace (1 + len coord + 8 + 8) with (1 + (len coord + (8 + 8))) by lia.
  rewrite make_succ by lia. rewrite set_index_head. cbn [bind].
  rewrite !make_add by lia.
  change (KeyType_byte KeySpatialMap :: make (len coord) ++ make 8 ++ make 8)
    with ([KeyType_byte KeySpatialMap] ++ make (len coord) ++ make 8 ++ make 8).
  rewrite (on_slice_window [KeyType_byte KeySpatialMap] (make (len coord))
             (make 8 ++ make 8) coord).
  - cbn [bind].
    rewrite (app_assoc [KeyType_byte KeySpatialMap] coord).
    rewrite (write_label_and_mapping ([KeyType_byte KeySpatialMap] ++ coord)
               (make 8) (make 8) label m).
    + now rewrite <- app_assoc.
    + rewrite len_app. reflexivity.
    + reflexivity.
    + reflexivity.
  - reflexivity.
  - rewrite make_length by lia. reflexivity.
  - f_equal. apply copy_same_length.
    unfold make. rewrite repeat_length. unfold len. lia.
  - unfold make. rewrite repeat_length. unfold len. lia.
Qed.

Lemma UpdateSpatialMapIndex_closed t coord lab mp label m :
  length lab = 8%nat -> length mp = 8%nat ->
  UpdateSpatialMapIndex (t :: coord ++ lab ++ mp) label m
  = Some (t :: coord ++ label_field lab label ++ be64 m).
Proof.
  intros Hlab Hmp. unfold UpdateSpatialMapIndex.
  change (t :: coord ++ lab ++ mp) with ([t] ++ coord ++ lab ++ mp).
  rewrite (app_assoc [t] coord).
  rewrite (write_label_and_mapping ([t] ++ coord) lab mp label m); auto.
  rewrite !len_app. unfold len. rewrite Hlab, Hmp. simpl length. lia.
Qed.

End SpatialMap.

(** ** Byte-lexicographic order of big-endian numbers *)

Section ByteOrder.

Import Go.

Lemma bytes_compare_refl s : bytes_compare s s = Eq.
Proof.
  induction s as [|x s IH]; simpl; [reflexivity|].
  now rewrite Z.compare_refl.
Qed.

Lemma bytes_compare_common_prefix p s t :
  bytes_compare (p ++ s) (p ++ t) = bytes_compare s t.
Proof.
  induction p as [|x p IH]; simpl; [reflexivity|].
  now rewrite Z.compare_refl.
Qed.

Lemma bytes_compare_app_lt x : forall y s t,
  length x = length y ->
  bytes_compare x y = Lt ->
  bytes_compare (x ++ s) (y ++ t) = Lt.
Proof.
  induction x as [|a x IH]; intros [|b y] s t Hlen Hlt;
    simpl in *; try discriminate.
  destruct (a ?= b); try assumption.
  apply IH; [congruence | assumption].
Qed.

Lemma big_endian_length n : forall v, length (big_endian n v) = n.
Proof.
  induction n as [|n IH]; intros v; simpl; [reflexivity|].
  rewrite length_app, IH. simpl. lia.
Qed.

Lemma be64_big_endian v : be64 v = big_endian 8 v.
Proof.
  unfold be64. cbn [big_endian app].
  rewrite !Z.shiftr_div_pow2 by lia.
  rewrite !Z.div_div by lia.
  reflexivity.
Qed.

Lemma big_endian_lt n : forall a b,
  0 <= a < b -> b < 256 ^ Z.of_nat n ->
  bytes_lt (big_endian n a) (big_endian n b).
Proof.
  unfold bytes_lt.
  induction n as [|n IH]; intros a b Hab Hb.
  - simpl in Hb. lia.
  - rewrite Nat2Z.inj_succ, Z.pow_succ_r in Hb by lia.
    cbn [big_endian].
    destruct (Z.eq_dec (a / 256) (b / 256)) as [Heq|Hne].
    + rewrite Heq, bytes_compare_common_prefix. unfold to_byte. simpl.
      assert (a mod 256 < b mod 256) as Hlt.
      { pose proof (Z.div_mod a 256). pose proof (Z.div_mod b 256). lia. }
      apply Z.compare_lt_iff in Hlt. now rewrite Hlt.
    + apply bytes_compare_app_lt.
      * now rewrite !big_endian_length.
      * apply IH.
        -- split; [apply Z.div_pos; lia|].
           assert (a / 256 <= b / 256) by (apply Z.div_le_mono; lia). lia.
        -- apply Z.div_lt_upper_bound; lia.
Qed.

Lemma be64_lt a b :
  0 <= a < b -> b < 2 ^ 64 -> bytes_lt (be64 a) (be64 b).
Proof.
  intros Hab Hb. rewrite !be64_big_endian.
  apply big_endian_lt; [assumption|].
  now change (256 ^ Z.of_nat 8) with (2 ^ 64).
Qed.

End ByteOrder.

(** ** The index builders *)

Section Builders.

Import Go Voxels.

Lemma NewLabelSurfaceIndex_closed label :
  NewLabelSurfaceIndex label
  = Some (KeyType_byte KeyLabelSurface :: be64 label).
Proof. reflexivity. Qed.

Lemma NewLabelSizesIndex_closed size label :
  NewLabelSizesIndex size label
  = Some (KeyType_byte KeyLabelSizes :: be64 size ++ be64 label).
Proof. reflexivity. Qed.

Lemma NewForwardMapIndex_closed label mapping :
  length label = 8%nat ->
  NewForwardMapIndex label mapping
  = Some (KeyType_byte KeyForwardMap :: label ++ be64 mapping).
Proof.
  intros H.
  do 9 (destruct label as [|? label]; try discriminate H).
  reflexivity.
Qed.

End Builders.

(** C1: [NewForwardMapIndex] on the big-endian label 1 and the mapping 2
    returns the 17 bytes [02, 00 00 00 00 00 00 00 01, 00 00 00 00 00 00 00 02],
    and the [KeyType] numbering gives Unknown = 0, VoxelBlock = 1,
    ForwardMap = 2. *)
Theorem NewForwardMapIndex_label1_mapping2 :
  Voxels.NewForwardMapIndex [0; 0; 0; 0; 0; 0; 0; 1] 2
  = Some [2; 0; 0; 0; 0; 0; 0; 0; 1; 0; 0; 0; 0; 0; 0; 0; 2]
  /\ Voxels.KeyType_byte Voxels.KeyUnknown = 0
  /\ Voxels.KeyType_byte Voxels.KeyVoxelBlock = 1
  /\ Voxels.KeyType_byte Voxels.KeyForwardMap = 2.
Proof. repeat split. Qed.

(** C3: for every block coordinate, 8-byte labels [labelA], [labelB] and
    mappings [mapA], [mapB], the index built from [(coord, labelA, mapA)] and
    then updated with [(labelB, mapB)] holds the same bytes as the index
    built from [(coord, labelB, mapB)]. *)
Theorem UpdateSpatialMapIndex_as_fresh coord labelA labelB mapA mapB :
  length labelA = 8%nat -> length labelB = 8%nat ->
  exists index index',
    Voxels.NewSpatialMapIndex coord (Some labelA) mapA = Some index
    /\ Voxels.UpdateSpatialMapIndex index (Some labelB) mapB = Some index'
    /\ Voxels.NewSpatialMapIndex coord (Some labelB) mapB = Some index'.
Proof.
  intros HA HB.
  rewrite !NewSpatialMapIndex_closed.
  eexists. eexists. split; [reflexivity|].
  rewrite UpdateSpatialMapIndex_closed;
    [| now rewrite label_field_length | apply be64_length].
  split; [reflexivity|].
  cbn [Voxels.label_field].
  rewrite (copy_same_length (Go.copy (Go.make 8) labelA) labelB)
    by now rewrite copy_length.
  rewrite (copy_same_length (Go.make 8) labelB) by assumption.
  reflexivity.
Qed.

Lemma UpdateSpatialMapIndex_as_fresh_witness :
  exists index index',
    Voxels.NewSpatialMapIndex [0; 0; 0; 1; 0; 0; 0; 2; 0; 0; 0; 3]
      (Some [0; 0; 0; 0; 0; 0; 0; 7]) 9 = Some index
    /\ Voxels.UpdateSpatialMapIndex index (Some [1; 2; 3; 4; 5; 6; 7; 8]) 300
       = Some index'
    /\ Voxels.NewSpatialMapIndex [0; 0; 0; 1; 0; 0; 0; 2; 0; 0; 0; 3]
         (Some [1; 2; 3; 4; 5; 6; 7; 8]) 300 = Some index'.
Proof.
  apply (UpdateSpatialMapIndex_as_fresh
           [0; 0; 0; 1; 0; 0; 0; 2; 0; 0; 0; 3]
           [0; 0; 0; 0; 0; 0; 0; 7] [1; 2; 3; 4; 5; 6; 7; 8] 9 300);
    reflexivity.
Defined.

(** C4: the label-first and size-first builders are strictly monotone for
    [bytes.Compare]: for labels [a1 < a2] (unsigned 64-bit)
    [NewLabelSurfaceIndex a1 < NewLabelSurfaceIndex a2], and for sizes
    [s1 < s2] and any label [NewLabelSizesIndex s1 label <
    NewLabelSizesIndex s2 label]. *)
Theorem label_and_size_indices_monotone :
  (forall a1 a2, 0 <= a1 < a2 -> a2 < 2 ^ 64 ->
     exists k1 k2,
       Voxels.NewLabelSurfaceIndex a1 = Some k1
       /\ Voxels.NewLabelSurfaceIndex a2 = Some k2
       /\ Go.bytes_lt k1 k2)
  /\ (forall s1 s2 label, 0 <= s1 < s2 -> s2 < 2 ^ 64 ->
        exists k1 k2,
          Voxels.NewLabelSizesIndex s1 label = Some k1
          /\ Voxels.NewLabelSizesIndex s2 label = Some k2
          /\ Go.bytes_lt k1 k2).
Proof.
  split.
  - intros a1 a2 H1 H2. rewrite !NewLabelSurfaceIndex_closed.
    eexists. eexists. repeat split.
    unfold Go.bytes_lt.
    change (Voxels.KeyType_byte Voxels.KeyLabelSurface :: Go.be64 a1)
      with ([Voxels.KeyType_byte Voxels.KeyLabelSurface] ++ Go.be64 a1).
    change (Voxels.KeyType_byte Voxels.KeyLabelSurface :: Go.be64 a2)
      with ([Voxels.KeyType_byte Voxels.KeyLabelSurface] ++ Go.be64 a2).
    rewrite bytes_compare_common_prefix. now apply be64_lt.
  - intros s1 s2 label H1 H2. rewrite !NewLabelSizesIndex_closed.
    eexists. eexists. repeat split.
    unfold Go.bytes_lt.
    change (Voxels.KeyType_byte Voxels.KeyLabelSizes
              :: Go.be64 s1 ++ Go.be64 label)
      with ([Voxels.KeyType_byte Voxels.KeyLabelSizes]
              ++ Go.be64 s1 ++ Go.be64 label).
    change (Voxels.KeyType_byte Voxels.KeyLabelSizes
              :: Go.be64 s2 ++ Go.be64 label)
      with ([Voxels.KeyType_byte Voxels.KeyLabelSizes]
              ++ Go.be64 s2 ++ Go.be64 label).
    rewrite bytes_compare_common_prefix.
    apply bytes_compare_app_lt; [reflexivity | now apply be64_lt].
Qed.

Lemma label_and_size_indices_monotone_witness :
  (exists k1 k2,
     Voxels.NewLabelSurfaceIndex 255 = Some k1
     /\ Voxels.NewLabelSurfaceIndex 256 = Some k2
     /\ Go.bytes_lt k1 k2)
  /\ (exists k1 k2,
        Voxels.NewLabelSizesIndex 255 9 = Some k1
        /\ Voxels.NewLabelSizesIndex 256 9 = Some k2
        /\ Go.bytes_lt k1 k2).
Proof.
  split.
  - apply (proj1 label_and_size_indices_monotone 255 256); lia.
  - apply (proj2 label_and_size_indices_monotone 255 256 9); lia.
Defined.

(** C9: on an index made by [NewSpatialMapIndex], [UpdateSpatialMapIndex]
    keeps the length, the key-type byte and the bytes of the spatial prefix;
    with a nil label it also keeps the stored label bytes and rewrites only
    the last eight bytes with the mapping; [NewSpatialMapIndex] with a nil
    label leaves its label field filled with zeros. *)
Theorem UpdateSpatialMapIndex_frame coord labelA mapA :
  exists index,
    Voxels.NewSpatialMapIndex coord labelA mapA = Some index
    /\ firstn (1 + length coord) index
       = Voxels.KeyType_byte Voxels.KeySpatialMap :: coord
    /\ (forall labelB mapB, exists index',
          Voxels.UpdateSpatialMapIndex index labelB mapB = Some index'
          /\ length index' = length index
          /\ firstn (1 + length coord) index'
             = firstn (1 + length coord) index)
    /\ (forall mapB, exists index',
          Voxels.UpdateSpatialMapIndex index None mapB = Some index'
          /\ firstn (1 + length coord + 8) index'
             = firstn (1 + length coord + 8) index
          /\ skipn (1 + length coord + 8) index' = Go.be64 mapB)
    /\ (labelA = None ->
        firstn 8 (skipn (1 + length coord) index) = repeat 0 8).
Proof.
  rewrite NewSpatialMapIndex_closed.
  set (lab := Voxels.label_field (Go.make 8) labelA).
  assert (Hlab : length lab = 8%nat) by apply label_field_length.
  eexists. split; [reflexivity|].
  assert (Hpre : forall (l rest : list Go.byte),
             firstn (1 + length coord)
               (Voxels.KeyType_byte Voxels.KeySpatialMap :: coord ++ l ++ rest)
             = Voxels.KeyType_byte Voxels.KeySpatialMap :: coord).
  { intros l rest. cbn [Nat.add firstn]. f_equal.
    rewrite firstn_app, firstn_all, Nat.sub_diag. simpl. apply app_nil_r. }
  split; [apply Hpre|].
  split; [|split].
  - intros labelB mapB.
    rewrite UpdateSpatialMapIndex_closed by (assumption || apply be64_length).
    eexists. split; [reflexivity|]. split.
    + cbn [length]. rewrite !length_app, label_field_length. reflexivity.
    + now rewrite !Hpre.
  - intros mapB.
    rewrite UpdateSpatialMapIndex_closed by (assumption || apply be64_length).
    eexists. split; [reflexivity|].
    cbn [Voxels.label_field].
    assert (Hcut : forall rest : list Go.byte,
               firstn (1 + length coord + 8)
                 (Voxels.KeyType_byte Voxels.KeySpatialMap
                    :: coord ++ lab ++ rest)
               = Voxels.KeyType_byte Voxels.KeySpatialMap :: coord ++ lab).
    { intros rest.
      change (Voxels.KeyType_byte Voxels.KeySpatialMap :: coord ++ lab ++ rest)
        with ([Voxels.KeyType_byte Voxels.KeySpatialMap] ++ coord ++ lab ++ rest).
      rewrite !app_assoc.
      rewrite firstn_app.
      rewrite firstn_all2 by (rewrite !length_app, Hlab; simpl; lia).
      rewrite !length_app, Hlab.
      replace (1 + length coord + 8
               - (length [Voxels.KeyType_byte Voxels.KeySpatialMap]
                  + length coord + 8))%nat with 0%nat by (simpl; lia).
      simpl firstn. rewrite app_nil_r, <- app_assoc. reflexivity. }
    split; [now rewrite !Hcut|].
    change (Voxels.KeyType_byte Voxels.KeySpatialMap
              :: coord ++ lab ++ Go.be64 mapB)
      with ([Voxels.KeyType_byte Voxels.KeySpatialMap]
              ++ coord ++ lab ++ Go.be64 mapB).
    rewrite !app_assoc.
    rewrite skipn_app.
    rewrite skipn_all2 by (rewrite !length_app, Hlab; simpl; lia).
    rewrite !length_app, Hlab.
    replace (1 + length coord + 8
             - (length [Voxels.KeyType_byte Voxels.KeySpatialMap]
                + length coord + 8))%nat with 0%nat by (simpl; lia).
    reflexivity.
  - intros ->. subst lab. cbn [Voxels.label_field].
    cbn [Nat.add skipn].
    rewrite skipn_app, skipn_all, Nat.sub_diag. reflexivity.
Qed.

(** ** The decoders and the key-type byte *)

Section DecoderFacts.

Import Go Voxels.

Variable IndexFromKey : list byte -> result (list byte).
Variable IndexZYX : Type.
Variable IndexFromBytes : list byte -> result IndexZYX.
Variable IndexZYXSize : Z.

Lemma index_head {A} (x : A) s : Go.index (x :: s) 0 = Some x.
Proof.
  unfold Go.index, len. simpl length.
  replace (0 <? Z.of_nat (S (length s))) with true
    by (symmetry; apply Z.ltb_lt; lia).
  reflexivity.
Qed.

Lemma DecodeVoxelBlockKey_mismatch key b rest :
  IndexFromKey key = Ok (b :: rest) ->
  b <> KeyType_byte KeyVoxelBlock ->
  DecodeVoxelBlockKey IndexFromKey IndexZYX IndexFromBytes key
  = Err (mismatch "KeyVoxelBlock" b).
Proof.
  intros Hk Hb. unfold DecodeVoxelBlockKey. rewrite Hk. cbn [rbind].
  rewrite index_head. cbn [must rbind].
  apply Z.eqb_neq in Hb. now rewrite Hb.
Qed.

Lemma DecodeSpatialMapKey_mismatch key b rest :
  IndexFromKey key = Ok (b :: rest) ->
  b <> KeyType_byte KeySpatialMap ->
  DecodeSpatialMapKey IndexFromKey IndexZYXSize key
  = Err (mismatch "KeySpatialMap" b).
Proof.
  intros Hk Hb. unfold DecodeSpatialMapKey. rewrite Hk. cbn [rbind].
  rewrite index_head. cbn [must rbind].
  apply Z.eqb_neq in Hb. now rewrite Hb.
Qed.

Lemma DecodeLabelSpatialMapKey_mismatch key b rest :
  IndexFromKey key = Ok (b :: rest) ->
  b <> KeyType_byte KeyLabelSpatialMap ->
  DecodeLabelSpatialMapKey IndexFromKey key
  = Err (mismatch "KeyLabelSpatialMap" b).
Proof.
  intros Hk Hb. unfold DecodeLabelSpatialMapKey. rewrite Hk. cbn [rbind].
  rewrite index_head. cbn [must rbind].
  apply Z.eqb_neq in Hb. now rewrite Hb.
Qed.

(** With the expected leading byte [DecodeLabelSpatialMapKey] reports no
    error at all, and [DecodeSpatialMapKey] neither. *)
Lemma DecodeLabelSpatialMapKey_match key rest :
  IndexFromKey key = Ok (KeyType_byte KeyLabelSpatialMap :: rest) ->
  forall e, DecodeLabelSpatialMapKey IndexFromKey key <> Err e.
Proof.
  intros Hk e. unfold DecodeLabelSpatialMapKey. rewrite Hk. cbn [rbind].
  rewrite index_head. cbn [must rbind KeyType_byte Z.eqb Pos.eqb negb].
  destruct (slice _ 1 9) as [w|]; cbn [must rbind]; [|discriminate].
  destruct (Uint64 w); cbn [must rbind]; [|discriminate].
  destruct (slice_from _ 9); cbn [must rbind]; discriminate.
Qed.

Lemma DecodeSpatialMapKey_match key rest :
  IndexFromKey key = Ok (KeyType_byte KeySpatialMap :: rest) ->
  forall e, DecodeSpatialMapKey IndexFromKey IndexZYXSize key <> Err e.
Proof.
  intros Hk e. unfold DecodeSpatialMapKey. rewrite Hk. cbn [rbind].
  rewrite index_head. cbn [must rbind KeyType_byte Z.eqb Pos.eqb negb].
  destruct (slice _ _ (1 + IndexZYXSize + 8)) as [l|];
    cbn [must rbind]; [|discriminate].
  destruct (slice _ _ _) as [w|]; cbn [must rbind]; [|discriminate].
  destruct (Uint64 w); cbn [must rbind]; discriminate.
Qed.

Lemma Uint64_window w : length w = 8%nat -> exists v, Uint64 w = Some v.
Proof.
  intros H.
  do 9 (destruct w as [|? w]; try discriminate H).
  eexists. reflexivity.
Qed.

Lemma LabelFromLabelSizesKey_any_type key b size lab :
  IndexFromKey key = Ok (b :: size ++ lab) ->
  length size = 8%nat -> length lab = 8%nat ->
  exists label,
    Uint64 lab = Some label
    /\ LabelFromLabelSizesKey IndexFromKey key = Ok label.
Proof.
  intros Hk Hs Hl. destruct (Uint64_window lab Hl) as [v Hv].
  exists v. split; [assumption|].
  unfold LabelFromLabelSizesKey. rewrite Hk. cbn [rbind].
  change (b :: size ++ lab) with ([b] ++ size ++ lab).
  rewrite app_assoc. rewrite <- (app_nil_r lab) at 1.
  rewrite (slice_window ([b] ++ size) lab []).
  - cbn [must rbind]. rewrite Hv. reflexivity.
  - rewrite len_app. unfold len. rewrite Hs. reflexivity.
  - rewrite len_app. unfold len. rewrite Hs, Hl. reflexivity.
Qed.

End DecoderFacts.

(** C2: the decoders of the voxel block, spatial map and label spatial map
    keys answer a leading byte other than their own with the key-type
    mismatch error that carries the byte; [LabelFromLabelSizesKey] makes no
    such test: on the forward map index of label 1 and mapping 2, whose
    leading byte is 2 and not 6, it returns the label 2 and no error. *)
Theorem LabelFromLabelSizesKey_accepts_forward_map
    (IndexFromKey : list Go.byte -> Go.result (list Go.byte)) key :
  IndexFromKey key
  = Go.Ok [2; 0; 0; 0; 0; 0; 0; 0; 1; 0; 0; 0; 0; 0; 0; 0; 2] ->
  Voxels.NewForwardMapIndex [0; 0; 0; 0; 0; 0; 0; 1] 2
  = Some [2; 0; 0; 0; 0; 0; 0; 0; 1; 0; 0; 0; 0; 0; 0; 0; 2]
  /\ 2 <> Voxels.KeyType_byte Voxels.KeyLabelSizes
  /\ Voxels.LabelFromLabelSizesKey IndexFromKey key = Go.Ok 2
  /\ Voxels.DecodeSpatialMapKey IndexFromKey 12 key
     = Go.Err "Expected KeySpatialMap index, got 2 byte instead"
  /\ Voxels.DecodeLabelSpatialMapKey IndexFromKey key
     = Go.Err "Expected KeyLabelSpatialMap index, got 2 byte instead".
Proof.
  intros Hk. split; [reflexivity|]. split; [discriminate|].
  unfold Voxels.LabelFromLabelSizesKey, Voxels.DecodeSpatialMapKey,
    Voxels.DecodeLabelSpatialMapKey.
  rewrite Hk. repeat split.
Qed.

Lemma LabelFromLabelSizesKey_accepts_forward_map_witness :
  Voxels.LabelFromLabelSizesKey (fun k => Go.Ok (skipn 1 k))
    [0; 2; 0; 0; 0; 0; 0; 0; 0; 1; 0; 0; 0; 0; 0; 0; 0; 2]
  = Go.Ok 2.
Proof.
  apply (LabelFromLabelSizesKey_accepts_forward_map
           (fun k => Go.Ok (skipn 1 k))
           [0; 2; 0; 0; 0; 0; 0; 0; 0; 1; 0; 0; 0; 0; 0; 0; 0; 2]).
  reflexivity.
Defined.

(** ** Identifiers *)

Section IdentifierFacts.

Import Go Dvid.

(** Or-ing a shifted value onto bits below the shift is an addition. *)
Lemma lor_shiftl_add a b n :
  0 <= n -> 0 <= a < 2 ^ n ->
  Z.lor a (Z.shiftl b n) = a + b * 2 ^ n.
Proof.
  intros Hn Ha.
  assert (Hland : Z.land a (Z.shiftl b n) = 0).
  { apply Z.bits_inj'. intros i Hi.
    rewrite Z.land_spec, Z.bits_0.
    destruct (Z.lt_ge_cases i n) as [Hlt|Hge].
    - rewrite (Z.shiftl_spec_low b n i Hlt). apply andb_false_r.
    - rewrite <- (Z.mod_small a (2 ^ n)) by lia.
      rewrite Z.mod_pow2_bits_high by lia. reflexivity. }
  rewrite <- Z.lxor_lor by assumption.
  rewrite <- Z.add_nocarry_lxor by assumption.
  now rewrite Z.shiftl_mul_pow2.
Qed.

Lemma Uint16_PutUint16 v :
  is_uint16 v ->
  exists b, PutUint16 (make 2) v = Some b /\ length b = 2%nat
            /\ Uint16 b = Some v.
Proof.
  unfold is_uint16, MaxLocalID. intros Hv.
  eexists. split; [reflexivity|]. split; [reflexivity|].
  cbn [app skipn make repeat Uint16]. f_equal. unfold to_byte.
  rewrite Z.shiftr_div_pow2 by lia.
  rewrite lor_shiftl_add by (try apply Z.mod_pos_bound; lia).
  change (2 ^ 8) with 256.
  rewrite (Z.mod_small (v / 256) 256)
    by (split; [apply Z.div_pos | apply Z.div_lt_upper_bound]; lia).
  pose proof (Z.div_mod v 256). lia.
Qed.

Lemma Uint32_PutUint32 v :
  is_uint32 v ->
  exists b, PutUint32 (make 4) v = Some b /\ length b = 4%nat
            /\ Uint32 b = Some v.
Proof.
  unfold is_uint32, MaxLocalID32. intros Hv.
  eexists. split; [reflexivity|]. split; [reflexivity|].
  cbn [app skipn make repeat Uint32]. f_equal. unfold to_byte.
  rewrite !Z.shiftr_div_pow2 by lia.
  pose proof (Z.mod_pos_bound v 256) as B0.
  pose proof (Z.mod_pos_bound (v / 2 ^ 8) 256) as B1.
  pose proof (Z.mod_pos_bound (v / 2 ^ 16) 256) as B2.
  pose proof (Z.mod_pos_bound (v / 2 ^ 24) 256) as B3.
  rewrite (lor_shiftl_add _ _ 8) by lia.
  rewrite (lor_shiftl_add _ _ 16) by lia.
  rewrite (lor_shiftl_add _ _ 24) by lia.
  clear B0 B1 B2 B3.
  change (2 ^ 8) with 256. change (2 ^ 16) with (256 * 256).
  change (2 ^ 24) with (256 * 256 * 256).
  rewrite <- !Z.div_div by lia.
  set (q1 := v / 256). set (q2 := q1 / 256). set (q3 := q2 / 256).
  pose proof (Z.div_mod v 256) as D0. fold q1 in D0.
  pose proof (Z.div_mod q1 256) as D1. fold q2 in D1.
  pose proof (Z.div_mod q2 256) as D2. fold q3 in D2.
  assert (Q3 : q3 mod 256 = q3).
  { apply Z.mod_small. subst q3 q2 q1.
    split.
    - repeat apply Z.div_pos; lia.
    - repeat (apply Z.div_lt_upper_bound; [lia|]). lia. }
  lia.
Qed.

(** Encoding then decoding gives the identifier back, for the five kinds;
    [LocalIDFromBytes] and [LocalID32FromBytes] also give the width. *)
Lemma LocalID_roundtrip id :
  is_uint16 id ->
  (b <- LocalID_Bytes id ;; LocalIDFromBytes b) = Some (id, 2).
Proof.
  intros H. destruct (Uint16_PutUint16 id H) as (b & Hb & _ & Hd).
  unfold LocalID_Bytes, LocalIDFromBytes, LocalIDSize.
  rewrite Hb. cbn [bind]. rewrite Hd. reflexivity.
Qed.

Lemma LocalID32_roundtrip id :
  is_uint32 id ->
  (b <- LocalID32_Bytes id ;; LocalID32FromBytes b) = Some (id, 4).
Proof.
  intros H. destruct (Uint32_PutUint32 id H) as (b & Hb & _ & Hd).
  unfold LocalID32_Bytes, LocalID32FromBytes, LocalID32Size.
  rewrite Hb. cbn [bind]. rewrite Hd. reflexivity.
Qed.

Lemma InstanceID_roundtrip id :
  is_uint32 id ->
  (b <- InstanceID_Bytes id ;; InstanceIDFromBytes b) = Some id.
Proof.
  intros H. destruct (Uint32_PutUint32 id H) as (b & Hb & _ & Hd).
  unfold InstanceID_Bytes, InstanceIDFromBytes, LocalID32Size.
  rewrite Hb. cbn [bind]. exact Hd.
Qed.

Lemma RepoID_roundtrip id :
  is_uint32 id ->
  (b <- RepoID_Bytes id ;; RepoIDFromBytes b) = Some id.
Proof. exact (InstanceID_roundtrip id). Qed.

Lemma VersionID_roundtrip id :
  is_uint32 id ->
  (b <- VersionID_Bytes id ;; VersionIDFromBytes b) = Some id.
Proof. exact (InstanceID_roundtrip id). Qed.

End IdentifierFacts.

(** C5: each identifier kind is read back unchanged from its [Bytes];
    [LocalIDFromBytes] and [LocalID32FromBytes] return the width (2 and 4)
    with it, but [InstanceIDFromBytes], [RepoIDFromBytes] and
    [VersionIDFromBytes] return the identifier alone and no byte count:
    shown here on the identifier 1. *)
Theorem id_from_bytes_results_at_1 :
  Go.bind (Dvid.LocalID_Bytes 1) Dvid.LocalIDFromBytes = Some (1, 2)
  /\ Go.bind (Dvid.LocalID32_Bytes 1) Dvid.LocalID32FromBytes = Some (1, 4)
  /\ Dvid.InstanceID_Bytes 1 = Some [0; 0; 0; 1]
  /\ Dvid.InstanceIDFromBytes [0; 0; 0; 1] = Some 1
  /\ Dvid.RepoID_Bytes 1 = Some [0; 0; 0; 1]
  /\ Dvid.RepoIDFromBytes [0; 0; 0; 1] = Some 1
  /\ Dvid.VersionID_Bytes 1 = Some [0; 0; 0; 1]
  /\ Dvid.VersionIDFromBytes [0; 0; 0; 1] = Some 1.
Proof. repeat split. Qed.

(** ** UUID *)

Section UUIDFacts.

Import Go Dvid.

Lemma hex_length bs : String.length (hex bs) = (2 * length bs)%nat.
Proof.
  induction bs as [|b bs IH]; simpl; [reflexivity|]. rewrite IH. lia.
Qed.

Lemma Sprintf_032x_full bs : length bs = 16%nat -> Sprintf_032x bs = hex bs.
Proof.
  intros H. unfold Sprintf_032x. rewrite hex_length, H. reflexivity.
Qed.

Lemma unhexdigit_hexdigit n :
  0 <= n < 16 -> unhexdigit (hexdigit n) = Some n.
Proof.
  intros H. rewrite <- (Z2Nat.id n) by lia.
  assert (Hm : (Z.to_nat n < 16)%nat) by lia.
  revert Hm. generalize (Z.to_nat n) as m. intros m Hm.
  do 16 (destruct m as [|m]; [reflexivity|]). lia.
Qed.

Lemma nibbles b :
  is_byte b ->
  0 <= Z.shiftr b 4 < 16 /\ 0 <= Z.land b 15 < 16
  /\ Z.lor (Z.shiftl (Z.shiftr b 4) 4) (Z.land b 15) = b.
Proof.
  unfold is_byte. intros Hb.
  rewrite Z.shiftr_div_pow2 by lia.
  change 15 with (Z.ones 4). rewrite Z.land_ones by lia.
  change (2 ^ 4) with 16.
  pose proof (Z.mod_pos_bound b 16).
  pose proof (Z.div_mod b 16).
  assert (0 <= b / 16 < 16)
    by (split; [apply Z.div_pos | apply Z.div_lt_upper_bound]; lia).
  repeat split; try lia.
  rewrite Z.lor_comm, lor_shiftl_add by lia.
  change (2 ^ 4) with 16. lia.
Qed.

Lemma hex_all_hex bs : Forall is_byte bs -> all_hex (hex bs) = true.
Proof.
  induction 1 as [|b bs Hb _ IH]; simpl; [reflexivity|].
  destruct (nibbles b Hb) as (Hhi & Hlo & _).
  now rewrite !unhexdigit_hexdigit.
Qed.

Lemma unhex_hex bs : Forall is_byte bs -> unhex (hex bs) = Some bs.
Proof.
  induction 1 as [|b bs Hb _ IH]; [reflexivity|].
  destruct (nibbles b Hb) as (Hhi & Hlo & Hb').
  cbn [hex unhex]. rewrite !unhexdigit_hexdigit by assumption.
  cbn [bind]. rewrite IH. cbn [bind]. now rewrite Hb'.
Qed.

End UUIDFacts.

(** C6: [NewUUID] returns the nil UUID (the empty string) exactly when the
    generator gave nil or a slice whose length is not 16; otherwise it
    returns the rendering of the 16 bytes as 32 hexadecimal characters, from
    which the bytes can be read back. *)
Theorem NewUUID_nil_or_32_hex (u : option (list Go.byte)) :
  (forall bs, u = Some bs -> Forall Go.is_byte bs) ->
  (Dvid.NewUUID u = Dvid.NilUUID
   <-> u = None \/ exists bs, u = Some bs /\ length bs <> 16%nat)
  /\ (Dvid.NewUUID u = Dvid.NilUUID
      \/ exists bs, u = Some bs /\ length bs = 16%nat
           /\ Dvid.NewUUID u = Dvid.hex bs
           /\ String.length (Dvid.NewUUID u) = 32%nat
           /\ Dvid.all_hex (Dvid.NewUUID u) = true
           /\ Dvid.unhex (Dvid.NewUUID u) = Some bs).
Proof.
  intros Hbytes. destruct u as [bs|]; cbn [Dvid.NewUUID].
  - specialize (Hbytes bs eq_refl).
    destruct (Nat.eq_dec (length bs) 16) as [H16|H16].
    + replace (Go.len bs =? 16) with true
        by (symmetry; apply Z.eqb_eq; unfold Go.len; lia).
      cbn [negb].
      rewrite (Sprintf_032x_full bs H16).
      assert (Hlen : String.length (Dvid.hex bs) = 32%nat)
        by (rewrite hex_length, H16; reflexivity).
      split.
      * split.
        -- intros Hnil. rewrite Hnil in Hlen. discriminate Hlen.
        -- intros [Hn | (bs' & Hs & Hl)]; [discriminate|].
           injection Hs as <-. contradiction.
      * right. exists bs. repeat split; auto.
        -- now apply hex_all_hex.
        -- now apply unhex_hex.
    + replace (Go.len bs =? 16) with false
        by (symmetry; apply Z.eqb_neq; unfold Go.len; lia).
      cbn [negb]. split; [|left; reflexivity].
      split; [|reflexivity].
      intros _. right. exists bs. split; [reflexivity | assumption].
  - split; [|left; reflexivity].
    split; [intros _; left; reflexivity | reflexivity].
Qed.

Lemma NewUUID_nil_or_32_hex_witness :
  Dvid.NewUUID
    (Some [18; 52; 86; 120; 154; 188; 222; 240; 1; 35; 69; 103; 137; 171; 205; 239])
  = "123456789abcdef00123456789abcdef"%string
  /\ Dvid.NewUUID (Some [1; 2; 3]) = Dvid.NilUUID
  /\ (Dvid.NewUUID
        (Some [18; 52; 86; 120; 154; 188; 222; 240; 1; 35; 69; 103; 137; 171; 205; 239])
      = Dvid.NilUUID
      \/ exists bs,
           Some [18; 52; 86; 120; 154; 188; 222; 240; 1; 35; 69; 103; 137; 171; 205; 239]
           = Some bs
           /\ length bs = 16%nat
           /\ Dvid.NewUUID
                (Some [18; 52; 86; 120; 154; 188; 222; 240; 1; 35; 69; 103; 137; 171; 205; 239])
              = Dvid.hex bs
           /\ String.length
                (Dvid.NewUUID
                   (Some [18; 52; 86; 120; 154; 188; 222; 240; 1; 35; 69; 103; 137; 171; 205; 239]))
              = 32%nat
           /\ Dvid.all_hex
                (Dvid.NewUUID
                   (Some [18; 52; 86; 120; 154; 188; 222; 240; 1; 35; 69; 103; 137; 171; 205; 239]))
              = true
           /\ Dvid.unhex
                (Dvid.NewUUID
                   (Some [18; 52; 86; 120; 154; 188; 222; 240; 1; 35; 69; 103; 137; 171; 205; 239]))
              = Some bs).
Proof.
  split; [reflexivity|]. split; [reflexivity|].
  apply (NewUUID_nil_or_32_hex
           (Some [18; 52; 86; 120; 154; 188; 222; 240; 1; 35; 69; 103; 137; 171; 205; 239])).
  intros bs H. injection H as <-.
  repeat constructor; unfold Go.is_byte; lia.
Defined.

(** ** Draining the cgo routines *)

Section CgoFacts.

Import Cgo.

Lemma poll_more_fuel fuel : forall env k st r,
  poll fuel env k st = Some r -> poll (S fuel) env k st = Some r.
Proof.
  induction fuel as [|fuel IH]; intros env k st r H; [discriminate|].
  cbn [poll] in H |- *.
  destruct (idle (env k) || (waits st >=? 5)); [assumption|].
  now apply IH.
Qed.

Lemma poll_fuel_le fuel fuel' env k st r :
  (fuel <= fuel')%nat ->
  poll fuel env k st = Some r -> poll fuel' env k st = Some r.
Proof.
  induction 1 as [|fuel' _ IH]; intros H; [assumption|].
  now apply poll_more_fuel, IH.
Qed.

(** From [waits = w <= 5] the loop returns within [6 - w] evaluations of its
    condition, having slept once per increment of [waits]. *)
Lemma poll_returns n : forall env k w s,
  0 <= w <= 5 -> n = Z.to_nat (5 - w) ->
  exists r,
    poll (S n) env k {| waits := w; slept := s |} = Some r
    /\ w <= waits r <= 5
    /\ slept r - s = waits r - w
    /\ (idle (env k) = true -> waits r = w)
    /\ ((forall j, (j < n)%nat -> idle (env (k + j)%nat) = false) ->
        waits r = 5).
Proof.
  induction n as [|n IH]; intros env k w s Hw Hn.
  - assert (w = 5) by lia. subst w.
    eexists. cbn [poll waits]. rewrite orb_true_r.
    split; [reflexivity|]. cbn [waits slept].
    split; [lia|]. split; [lia|]. split; [reflexivity|]. reflexivity.
  - assert (w < 5) as Hlt by lia.
    cbn [poll waits].
    replace (w >=? 5) with false by (symmetry; rewrite Z.geb_leb; apply Z.leb_gt; lia).
    rewrite orb_false_r.
    destruct (idle (env k)) eqn:Hidle.
    + eexists. split; [reflexivity|]. cbn [waits slept].
      split; [lia|]. split; [lia|]. split; [reflexivity|].
      intros Hbusy. specialize (Hbusy 0%nat ltac:(lia)).
      rewrite Nat.add_0_r in Hbusy. congruence.
    + cbn [slept].
      destruct (IH env (S k) (w + 1) (s + 1) ltac:(lia) ltac:(lia))
        as (r & Hr & Hwr & Hs & _ & Hall).
      exists r. split; [exact Hr|].
      split; [lia|]. split; [lia|]. split; [discriminate|].
      intros Hbusy. apply Hall. intros j Hj.
      specialize (Hbusy (S j) ltac:(lia)).
      now rewrite Nat.add_succ_r in Hbusy.
Qed.

End CgoFacts.

Lemma idle_true r :
  Cgo.idle r = true <-> Cgo.cgoNumActive r = 0 /\ Cgo.queued r = 0.
Proof.
  unfold Cgo.idle. rewrite andb_true_iff, !Z.eqb_eq. reflexivity.
Qed.

Lemma idle_false r :
  Cgo.idle r = false <-> Cgo.cgoNumActive r <> 0 \/ Cgo.queued r <> 0.
Proof.
  unfold Cgo.idle. rewrite andb_false_iff, !Z.eqb_neq. reflexivity.
Qed.

(** C7: [BlockOnActiveCgo] returns whatever the cgo routines do: six
    evaluations of the loop condition always suffice and at most five sleeps
    of one second are made; it returns without sleeping when [cgoNumActive]
    and [len(cgoActive)] are both zero at the first look, and after exactly
    five sleeps (five seconds, [waits = 5]) when at each of the first five
    looks one of the two is not zero. *)
Theorem BlockOnActiveCgo_returns (env : nat -> Cgo.reading) (fuel : nat) :
  (6 <= fuel)%nat ->
  exists r,
    Cgo.BlockOnActiveCgo fuel env = Some r
    /\ 0 <= Cgo.waits r <= 5
    /\ Cgo.slept r = Cgo.waits r
    /\ (Cgo.cgoNumActive (env 0%nat) = 0 -> Cgo.queued (env 0%nat) = 0 ->
        Cgo.waits r = 0 /\ Cgo.slept r = 0)
    /\ ((forall k, (k < 5)%nat ->
           Cgo.cgoNumActive (env k) <> 0 \/ Cgo.queued (env k) <> 0) ->
        Cgo.waits r = 5 /\ Cgo.slept r = 5).
Proof.
  intros Hfuel.
  destruct (poll_returns 5 env 0%nat 0 0 ltac:(lia) eq_refl)
    as (r & Hr & Hw & Hs & Hidle & Hbusy).
  exists r. split.
  - unfold Cgo.BlockOnActiveCgo. now apply (poll_fuel_le 6 fuel).
  - split; [lia|]. split; [lia|]. split.
    + intros Hn Hq.
      assert (Cgo.waits r = 0) by (apply Hidle, idle_true; now split).
      lia.
    + intros H.
      assert (Cgo.waits r = 5)
        by (apply Hbusy; intros j Hj; apply idle_false; now apply H).
      lia.
Qed.

Lemma BlockOnActiveCgo_returns_witness :
  Cgo.BlockOnActiveCgo 6
    (fun _ => {| Cgo.cgoNumActive := 1; Cgo.queued := 0 |})
  = Some {| Cgo.waits := 5; Cgo.slept := 5 |}
  /\ Cgo.BlockOnActiveCgo 6
       (fun _ => {| Cgo.cgoNumActive := 0; Cgo.queued := 0 |})
     = Some {| Cgo.waits := 0; Cgo.slept := 0 |}.
Proof.
  split.
  - destruct (BlockOnActiveCgo_returns
                (fun _ => {| Cgo.cgoNumActive := 1; Cgo.queued := 0 |}) 6
                ltac:(lia)) as (r & Hr & _ & _ & _ & Hbusy).
    destruct Hbusy as [Hw Hs].
    + intros k _. left. cbn [Cgo.cgoNumActive]. lia.
    + destruct r as [w s]. cbn [Cgo.waits Cgo.slept] in Hw, Hs.
      subst w s. exact Hr.
  - destruct (BlockOnActiveCgo_returns
                (fun _ => {| Cgo.cgoNumActive := 0; Cgo.queued := 0 |}) 6
                ltac:(lia)) as (r & Hr & _ & _ & Hidle & _).
    destruct Hidle as [Hw Hs]; [reflexivity | reflexivity |].
    destruct r as [w s]. cbn [Cgo.waits Cgo.slept] in Hw, Hs.
    subst w s. exact Hr.
Defined.

(** ** Setting up the storage engines *)

Section SetupFacts.

Import Go Server.

Variable Config : Type.
Variable NewKeyValueStore :
  string -> bool -> Config -> option KVEngine * error.
Variable NewGraphStore :
  string -> bool -> Config -> option KVEngine -> option GraphEngine * error.

Lemma has_all_kv e :
  (forall c, has (kv_impl c) e = true) ->
  e = Some {| implOrderedKeyValueDB := true;
              implOrderedKeyValueSetter := true;
              implOrderedKeyValueGetter := true |}.
Proof.
  intros H.
  pose proof (H OrderedKeyValueDB) as H1.
  pose proof (H OrderedKeyValueSetter) as H2.
  pose proof (H OrderedKeyValueGetter) as H3.
  destruct e as [[[] [] []]|]; try discriminate; reflexivity.
Qed.

Lemma has_all_graph g :
  (forall c, has (graph_impl c) g = true) ->
  g = Some {| implGraphDB := true; implGraphSetter := true;
              implGraphGetter := true |}.
Proof.
  intros H.
  pose proof (H GraphDB) as H1.
  pose proof (H GraphSetter) as H2.
  pose proof (H GraphGetter) as H3.
  destruct g as [[[] [] []]|]; try discriminate; reflexivity.
Qed.

(** A key-value engine without one of its interfaces: the error names a
    missing interface and [Engines.setup] is left alone. *)
Lemma SetupEngines_kv_missing path config E e :
  NewKeyValueStore path true config = (e, None) ->
  (exists c, has (kv_impl c) e = false) ->
  setup (fst (SetupEngines Config NewKeyValueStore NewGraphStore path config E)) = setup E
  /\ exists c, has (kv_impl c) e = false
        /\ snd (SetupEngines Config NewKeyValueStore NewGraphStore path config E) = database_at path (kv_text c).
Proof.
  intros HK [c0 Hc0]. unfold SetupEngines. rewrite HK.
  destruct e as [[[] [] []]|];
    try (exfalso; destruct c0; discriminate Hc0);
    (split; [reflexivity|]);
    first [ exists OrderedKeyValueDB; split; reflexivity
          | exists OrderedKeyValueSetter; split; reflexivity
          | exists OrderedKeyValueGetter; split; reflexivity ].
Qed.

(** The same for the graph engine, reached when the key-value engine has its
    three interfaces. *)
Lemma SetupEngines_graph_missing path config E e g :
  NewKeyValueStore path true config = (e, None) ->
  (forall c, has (kv_impl c) e = true) ->
  NewGraphStore path true config e = (g, None) ->
  (exists c, has (graph_impl c) g = false) ->
  setup (fst (SetupEngines Config NewKeyValueStore NewGraphStore path config E)) = setup E
  /\ exists c, has (graph_impl c) g = false
        /\ snd (SetupEngines Config NewKeyValueStore NewGraphStore path config E) = database_at path (graph_text c).
Proof.
  intros HK Hall HG [c0 Hc0]. apply has_all_kv in Hall. subst e.
  unfold SetupEngines. rewrite HK.
  cbv beta iota zeta delta
    [set_kvEngine set_kvDB set_kvSetter set_kvGetter assert_type negb
     kvEngine kvDB implOrderedKeyValueDB implOrderedKeyValueSetter
     implOrderedKeyValueGetter].
  rewrite HG.
  destruct g as [[[] [] []]|];
    try (exfalso; destruct c0; discriminate Hc0);
    (split; [reflexivity|]);
    first [ exists GraphDB; split; reflexivity
          | exists GraphSetter; split; reflexivity
          | exists GraphGetter; split; reflexivity ].
Qed.

(** All six assertions succeed: no error, and [Engines.setup] is set. *)
Lemma SetupEngines_all_present path config E e g :
  NewKeyValueStore path true config = (e, None) ->
  (forall c, has (kv_impl c) e = true) ->
  NewGraphStore path true config e = (g, None) ->
  (forall c, has (graph_impl c) g = true) ->
  snd (SetupEngines Config NewKeyValueStore NewGraphStore path config E) = None
  /\ setup (fst (SetupEngines Config NewKeyValueStore NewGraphStore path config E)) = true.
Proof.
  intros HK Hkv HG Hg. apply has_all_kv in Hkv. apply has_all_graph in Hg.
  subst e g. unfold SetupEngines. rewrite HK.
  cbv beta iota zeta delta
    [set_kvEngine set_kvDB set_kvSetter set_kvGetter assert_type negb
     kvEngine kvDB implOrderedKeyValueDB implOrderedKeyValueSetter
     implOrderedKeyValueGetter].
  rewrite HG. split; reflexivity.
Qed.

(** A nil error comes only from that run; any error leaves [Engines.setup]
    as it was. *)
Lemma SetupEngines_result path config E :
  (snd (SetupEngines Config NewKeyValueStore NewGraphStore path config E) = None ->
   setup (fst (SetupEngines Config NewKeyValueStore NewGraphStore path config E)) = true
   /\ exists e g,
        NewKeyValueStore path true config = (e, None)
        /\ (forall c, has (kv_impl c) e = true)
        /\ NewGraphStore path true config e = (g, None)
        /\ (forall c, has (graph_impl c) g = true))
  /\ (snd (SetupEngines Config NewKeyValueStore NewGraphStore path config E) <> None ->
      setup (fst (SetupEngines Config NewKeyValueStore NewGraphStore path config E)) = setup E).
Proof.
  unfold SetupEngines.
  destruct (NewKeyValueStore path true config) as [e [err|]] eqn:HK.
  { split; [discriminate | reflexivity]. }
  destruct e as [[[] [] []]|];
    try (split; [discriminate | reflexivity]).
  cbv beta iota zeta delta
    [set_kvEngine set_kvDB set_kvSetter set_kvGetter assert_type negb
     kvEngine kvDB implOrderedKeyValueDB implOrderedKeyValueSetter
     implOrderedKeyValueGetter].
  destruct (NewGraphStore path true config _) as [g [err|]] eqn:HG.
  { split; [discriminate | reflexivity]. }
  destruct g as [[[] [] []]|];
    try (split; [discriminate | reflexivity]).
  split.
  - intros _. split; [reflexivity|].
    eexists. eexists. split; [reflexivity|].
    split; [intros []; reflexivity|].
    split; [exact HG|]. intros []; reflexivity.
  - intros H. now contradiction H.
Qed.

End SetupFacts.



(** ** The handler token pool *)

Section TokenFacts.

Import Go Server.

Lemma send_token N n :
  Z.of_nat n < N -> send (tokens N n) 1 = Some (tokens N (S n)).
Proof.
  intros H. unfold send, chan_len, len, tokens. cbn [capacity buffer].
  rewrite repeat_length.
  replace (Z.of_nat n <? N) with true by (symmetry; apply Z.ltb_lt; lia).
  f_equal. f_equal. symmetry. apply (repeat_cons n 1).
Qed.

Lemma fill_tokens_full N fuel : forall n,
  Z.of_nat n <= N -> (Z.to_nat N - n < fuel)%nat ->
  fill_tokens fuel N (Z.of_nat n) (tokens N n)
  = Some (tokens N (Z.to_nat N)).
Proof.
  induction fuel as [|fuel IH]; intros n Hn Hfuel; [lia|].
  cbn [fill_tokens].
  destruct (Z.ltb_spec (Z.of_nat n) N) as [Hlt|Hge].
  - rewrite send_token by assumption. cbn [bind].
    replace (Z.of_nat n + 1) with (Z.of_nat (S n)) by lia.
    apply IH; lia.
  - replace (Z.to_nat N) with n by lia. reflexivity.
Qed.

Lemma acquire_token N n : acquire (tokens N (S n)) = Some (tokens N n).
Proof. reflexivity. Qed.

Lemma acquire_empty N : acquire (tokens N 0) = None.
Proof. reflexivity. Qed.

Lemma acquire_n_tokens N k : forall n,
  (k <= n)%nat -> acquire_n k (tokens N n) = Some (tokens N (n - k)).
Proof.
  induction k as [|k IH]; intros n Hk; cbn [acquire_n].
  - now rewrite Nat.sub_0_r.
  - destruct n as [|n]; [lia|].
    rewrite acquire_token. cbn [bind]. rewrite IH by lia. reflexivity.
Qed.

End TokenFacts.

(** C10: after [init] the pool holds [N = MaxChunkHandlers] tokens, so [N]
    acquisitions go through one after the other; the next one is not
    enabled (it blocks) until a token is released, and is enabled right
    after that release. *)
Theorem HandlerToken_backpressure (N : Z) (fuel : nat) :
  1 <= N -> (Z.to_nat N < fuel)%nat ->
  exists c,
    Server.HandlerToken_init fuel N = Some c
    /\ Server.chan_len c = N
    /\ (forall k, (k <= Z.to_nat N)%nat ->
          exists ck, Server.acquire_n k c = Some ck
                     /\ Server.chan_len ck = N - Z.of_nat k)
    /\ exists c0,
         Server.acquire_n (Z.to_nat N) c = Some c0
         /\ Server.acquire c0 = None
         /\ exists c1,
              Server.release c0 = Some c1
              /\ exists c2, Server.acquire c1 = Some c2
                            /\ Server.chan_len c2 = 0.
Proof.
  intros HN Hfuel.
  exists (Server.tokens N (Z.to_nat N)).
  split.
  - unfold Server.HandlerToken_init.
    apply (fill_tokens_full N fuel 0%nat); lia.
  - split.
    + unfold Server.chan_len, Go.len, Server.tokens. cbn [Server.buffer].
      rewrite repeat_length. lia.
    + split.
      * intros k Hk. rewrite acquire_n_tokens by assumption.
        eexists. split; [reflexivity|].
        unfold Server.chan_len, Go.len, Server.tokens. cbn [Server.buffer].
        rewrite repeat_length. lia.
      * rewrite acquire_n_tokens by lia. rewrite Nat.sub_diag.
        eexists. split; [reflexivity|].
        split; [apply acquire_empty|].
        unfold Server.release. rewrite send_token by (simpl; lia).
        eexists. split; [reflexivity|].
        rewrite acquire_token. eexists. split; reflexivity.
Qed.

Lemma HandlerToken_backpressure_witness :
  exists c,
    Server.HandlerToken_init 5 4 = Some c
    /\ Server.chan_len c = 4
    /\ (forall k, (k <= Z.to_nat 4)%nat ->
          exists ck, Server.acquire_n k c = Some ck
                     /\ Server.chan_len ck = 4 - Z.of_nat k)
    /\ exists c0,
         Server.acquire_n (Z.to_nat 4) c = Some c0
         /\ Server.acquire c0 = None
         /\ exists c1,
              Server.release c0 = Some c1
              /\ exists c2, Server.acquire c1 = Some c2
                            /\ Server.chan_len c2 = 0.
Proof.
  apply (HandlerToken_backpressure 4 5); [lia | simpl; lia].
Defined.

(** * Further properties of the code *)

(** ** The other index builders, and decoding what they build *)

Section IndexFacts.

Import Go Voxels.

Lemma skipn_repeat {A} (x : A) m : forall n,
  skipn n (repeat x m) = repeat x (m - n).
Proof.
  induction m as [|m IH]; intros [|n]; simpl; auto.
Qed.

Lemma copy_zero_padded n (l : list byte) :
  copy (make (Z.of_nat n)) l = firstn n l ++ repeat 0 (n - length l).
Proof.
  unfold copy, make. rewrite Nat2Z.id, repeat_length, skipn_repeat.
  reflexivity.
Qed.

Lemma Uint64_be64 v rest :
  0 <= v < 2 ^ 64 -> Uint64 (be64 v ++ rest) = Some v.
Proof.
  intros Hv. unfold be64. cbn [app Uint64]. f_equal. unfold to_byte.
  rewrite !Z.shiftr_div_pow2 by lia.
  pose proof (Z.mod_pos_bound v 256) as B0.
  pose proof (Z.mod_pos_bound (v / 2 ^ 8) 256) as B1.
  pose proof (Z.mod_pos_bound (v / 2 ^ 16) 256) as B2.
  pose proof (Z.mod_pos_bound (v / 2 ^ 24) 256) as B3.
  pose proof (Z.mod_pos_bound (v / 2 ^ 32) 256) as B4.
  pose proof (Z.mod_pos_bound (v / 2 ^ 40) 256) as B5.
  pose proof (Z.mod_pos_bound (v / 2 ^ 48) 256) as B6.
  pose proof (Z.mod_pos_bound (v / 2 ^ 56) 256) as B7.
  rewrite (lor_shiftl_add _ _ 8) by lia.
  rewrite (lor_shiftl_add _ _ 16) by lia.
  rewrite (lor_shiftl_add _ _ 24) by lia.
  rewrite (lor_shiftl_add _ _ 32) by lia.
  rewrite (lor_shiftl_add _ _ 40) by lia.
  rewrite (lor_shiftl_add _ _ 48) by lia.
  rewrite (lor_shiftl_add _ _ 56) by lia.
  clear B0 B1 B2 B3 B4 B5 B6 B7.
  change (2 ^ 8) with 256. change (2 ^ 16) with (256 * 256).
  change (2 ^ 24) with (256 * 256 * 256).
  change (2 ^ 32) with (256 * 256 * 256 * 256).
  change (2 ^ 40) with (256 * 256 * 256 * 256 * 256).
  change (2 ^ 48) with (256 * 256 * 256 * 256 * 256 * 256).
  change (2 ^ 56) with (256 * 256 * 256 * 256 * 256 * 256 * 256).
  rewrite <- !Z.div_div by lia.
  set (q1 := v / 256). set (q2 := q1 / 256). set (q3 := q2 / 256).
  set (q4 := q3 / 256). set (q5 := q4 / 256). set (q6 := q5 / 256).
  set (q7 := q6 / 256).
  pose proof (Z.div_mod v 256) as D0. fold q1 in D0.
  pose proof (Z.div_mod q1 256) as D1. fold q2 in D1.
  pose proof (Z.div_mod q2 256) as D2. fold q3 in D2.
  pose proof (Z.div_mod q3 256) as D3. fold q4 in D3.
  pose proof (Z.div_mod q4 256) as D4. fold q5 in D4.
  pose proof (Z.div_mod q5 256) as D5. fold q6 in D5.
  pose proof (Z.div_mod q6 256) as D6. fold q7 in D6.
  assert (Q7 : q7 mod 256 = q7).
  { apply Z.mod_small. subst q7 q6 q5 q4 q3 q2 q1.
    split.
    - repeat apply Z.div_pos; lia.
    - repeat (apply Z.div_lt_upper_bound; [lia|]). lia. }
  lia.
Qed.

Lemma NewVoxelBlockIndexByCoord_closed coord :
  NewVoxelBlockIndexByCoord coord
  = Some (KeyType_byte KeyVoxelBlock :: coord).
Proof.
  unfold NewVoxelBlockIndexByCoord.
  pose proof (len_nonneg coord) as Hc.
  rewrite make_succ by lia. rewrite set_index_head. cbn [bind].
  change (KeyType_byte KeyVoxelBlock :: make (len coord))
    with ([KeyType_byte KeyVoxelBlock] ++ make (len coord)).
  replace ([KeyType_byte KeyVoxelBlock] ++ make (len coord))
    with ([KeyType_byte KeyVoxelBlock] ++ make (len coord) ++ [])
    by now rewrite app_nil_r.
  rewrite (on_slice_window [KeyType_byte KeyVoxelBlock] (make (len coord))
             [] coord).
  - cbn [bind]. now rewrite app_nil_r.
  - reflexivity.
  - rewrite !len_app. change (len (@nil byte)) with 0. lia.
  - f_equal. apply copy_same_length.
    unfold make. rewrite repeat_length. unfold len. lia.
  - unfold make. rewrite repeat_length. unfold len. lia.
Qed.

Lemma NewLabelSpatialMapIndex_closed label blockBytes :
  NewLabelSpatialMapIndex label blockBytes
  = Some (KeyType_byte KeyLabelSpatialMap :: be64 label ++ blockBytes).
Proof.
  unfold NewLabelSpatialMapIndex.
  pose proof (len_nonneg blockBytes) as Hc.
  replace (1 + 8 + len blockBytes) with (1 + (8 + len blockBytes)) by lia.
  rewrite make_succ by lia. rewrite set_index_head. cbn [bind].
  rewrite make_add by lia.
  change (KeyType_byte KeyLabelSpatialMap :: make 8 ++ make (len blockBytes))
    with ([KeyType_byte KeyLabelSpatialMap] ++ make 8
            ++ make (len blockBytes)).
  rewrite (on_slice_window [KeyType_byte KeyLabelSpatialMap] (make 8)
             (make (len blockBytes)) (be64 label)); try reflexivity.
  cbn [bind].
  replace ([KeyType_byte KeyLabelSpatialMap] ++ be64 label
             ++ make (len blockBytes))
    with (([KeyType_byte KeyLabelSpatialMap] ++ be64 label)
            ++ make (len blockBytes) ++ [])
    by now rewrite app_nil_r, <- app_assoc.
  rewrite (on_slice_window ([KeyType_byte KeyLabelSpatialMap] ++ be64 label)
             (make (len blockBytes)) [] blockBytes).
  - cbn [bind]. now rewrite app_nil_r, <- app_assoc.
  - reflexivity.
  - rewrite !len_app. change (len (@nil byte)) with 0. lia.
  - f_equal. apply copy_same_length.
    unfold make. rewrite repeat_length. unfold len. lia.
  - unfold make. rewrite repeat_length. unfold len. lia.
Qed.

Lemma NewForwardMapIndex_any label mapping :
  NewForwardMapIndex label mapping
  = Some (KeyType_byte KeyForwardMap
            :: (firstn 8 label ++ repeat 0 (8 - length label))
            ++ be64 mapping).
Proof.
  unfold NewForwardMapIndex.
  change (make 17) with (0 :: make 8 ++ make 8).
  rewrite set_index_head. cbn [bind].
  change (KeyType_byte KeyForwardMap :: make 8 ++ make 8)
    with ([KeyType_byte KeyForwardMap] ++ make 8 ++ make 8).
  rewrite (on_slice_window [KeyType_byte KeyForwardMap] (make 8) (make 8)
             (copy (make 8) label));
    [ | reflexivity | reflexivity | reflexivity | apply copy_length ].
  cbn [bind].
  replace ([KeyType_byte KeyForwardMap] ++ copy (make 8) label ++ make 8)
    with (([KeyType_byte KeyForwardMap] ++ copy (make 8) label)
            ++ make 8 ++ [])
    by now rewrite app_nil_r, <- app_assoc.
  rewrite (on_slice_window ([KeyType_byte KeyForwardMap] ++ copy (make 8) label)
             (make 8) [] (be64 mapping)).
  - cbn [bind]. rewrite app_nil_r, <- app_assoc.
    now rewrite (copy_zero_padded 8 label : copy (make 8) label = _).
  - rewrite len_app. unfold len. rewrite copy_length. reflexivity.
  - rewrite len_app. unfold len. rewrite copy_length. reflexivity.
  - reflexivity.
  - reflexivity.
Qed.

Lemma NewInverseMapIndex_any label mapping :
  NewInverseMapIndex label mapping
  = Some (KeyType_byte KeyInverseMap
            :: be64 mapping
            ++ (firstn 8 label ++ repeat 0 (8 - length label))).
Proof.
  unfold NewInverseMapIndex.
  change (make 17) with (0 :: make 8 ++ make 8).
  rewrite set_index_head. cbn [bind].
  change (KeyType_byte KeyInverseMap :: make 8 ++ make 8)
    with ([KeyType_byte KeyInverseMap] ++ make 8 ++ make 8).
  rewrite (on_slice_window [KeyType_byte KeyInverseMap] (make 8) (make 8)
             (be64 mapping)); try reflexivity.
  cbn [bind].
  replace ([KeyType_byte KeyInverseMap] ++ be64 mapping ++ make 8)
    with (([KeyType_byte KeyInverseMap] ++ be64 mapping) ++ make 8 ++ [])
    by now rewrite app_nil_r, <- app_assoc.
  rewrite (on_slice_window ([KeyType_byte KeyInverseMap] ++ be64 mapping)
             (make 8) [] (copy (make 8) label));
    [ | reflexivity | reflexivity | reflexivity | apply copy_length ].
  cbn [bind]. rewrite app_nil_r, <- app_assoc.
  now rewrite (copy_zero_padded 8 label : copy (make 8) label = _).
Qed.

End IndexFacts.

Section OrderFacts.

Import Go Voxels.

Lemma bytes_compare_antisym x : forall y,
  bytes_compare x y = CompOpp (bytes_compare y x).
Proof.
  induction x as [|a x IH]; intros [|b y]; simpl; try reflexivity.
  rewrite (Z.compare_antisym b a).
  destruct (b ?= a); simpl; auto.
Qed.

Lemma bytes_compare_app x : forall y s t,
  length x = length y ->
  bytes_compare (x ++ s) (y ++ t)
  = match bytes_compare x y with
    | Eq => bytes_compare s t
    | c => c
    end.
Proof.
  induction x as [|a x IH]; intros [|b y] s t Hlen;
    simpl in *; try discriminate; [reflexivity|].
  destruct (a ?= b); try reflexivity.
  apply IH. congruence.
Qed.

Lemma bytes_compare_be64 a b :
  0 <= a < 2 ^ 64 -> 0 <= b < 2 ^ 64 ->
  bytes_compare (be64 a) (be64 b) = (a ?= b).
Proof.
  intros Ha Hb. destruct (Z.compare_spec a b) as [->|Hlt|Hgt].
  - apply bytes_compare_refl.
  - apply be64_lt; lia.
  - rewrite bytes_compare_antisym.
    rewrite (be64_lt b a) by lia. reflexivity.
Qed.

Lemma bytes_compare_eq x : forall y, bytes_compare x y = Eq -> x = y.
Proof.
  induction x as [|a x IH]; intros [|b y] H; simpl in H;
    try discriminate; [reflexivity|].
  destruct (Z.compare_spec a b); try discriminate.
  subst. f_equal. now apply IH.
Qed.

Lemma built_head t index :
  built t index -> exists rest, index = KeyType_byte t :: rest.
Proof.
  intros [coord i H | l m i H | l m i H | c l m i H | l b i H | s l i H
          | l i H].
  - unfold NewVoxelBlockIndex in H.
    rewrite NewVoxelBlockIndexByCoord_closed in H. injection H as <-. eauto.
  - rewrite NewForwardMapIndex_any in H. injection H as <-. eauto.
  - rewrite NewInverseMapIndex_any in H. injection H as <-. eauto.
  - rewrite NewSpatialMapIndex_closed in H. injection H as <-. eauto.
  - rewrite NewLabelSpatialMapIndex_closed in H. injection H as <-. eauto.
  - rewrite NewLabelSizesIndex_closed in H. injection H as <-. eauto.
  - rewrite NewLabelSurfaceIndex_closed in H. injection H as <-. eauto.
Qed.

End OrderFacts.

(** X1: [NewForwardMapIndex] and [NewInverseMapIndex] return 17 bytes for a
    label of any length: the label field holds the first eight bytes of the
    label, filled up with zeros on the right when the label is shorter; the
    forward index is type, label, mapping and the inverse index is type,
    mapping, label. *)
Theorem forward_inverse_index_layout (label : list Go.byte) (mapping : Z) :
  let field := firstn 8 label ++ repeat 0 (8 - length label) in
  length field = 8%nat
  /\ Voxels.NewForwardMapIndex label mapping
     = Some (2 :: field ++ Go.be64 mapping)
  /\ Voxels.NewInverseMapIndex label mapping
     = Some (3 :: Go.be64 mapping ++ field).
Proof.
  intros field. split.
  - subst field. rewrite length_app, length_firstn, repeat_length. lia.
  - split; [apply NewForwardMapIndex_any | apply NewInverseMapIndex_any].
Qed.

(** X2: a key built by [NewLabelSpatialMapIndex] from a label below 2^64 and
    any block bytes is decoded by [DecodeLabelSpatialMapKey] to that label
    and those block bytes. *)
Theorem DecodeLabelSpatialMapKey_roundtrip
    (IndexFromKey : list Go.byte -> Go.result (list Go.byte))
    (key : list Go.byte) (label : Z) (blockBytes index : list Go.byte) :
  0 <= label < 2 ^ 64 ->
  Voxels.NewLabelSpatialMapIndex label blockBytes = Some index ->
  IndexFromKey key = Go.Ok index ->
  Voxels.DecodeLabelSpatialMapKey IndexFromKey key
  = Go.Ok (label, blockBytes).
Proof.
  intros Hl Hb Hk. rewrite NewLabelSpatialMapIndex_closed in Hb.
  assert (Hi : index = 5 :: Go.be64 label ++ blockBytes)
    by (injection Hb; auto).
  clear Hb. subst index.
  unfold Voxels.DecodeLabelSpatialMapKey. rewrite Hk. cbn [Go.rbind].
  rewrite index_head. cbn [Go.must Go.rbind]. cbn [Voxels.KeyType_byte].
  change (negb (5 =? 5)) with false. cbv iota.
  change (5 :: Go.be64 label ++ blockBytes)
    with ([5] ++ Go.be64 label ++ blockBytes).
  rewrite (slice_window [5] (Go.be64 label) blockBytes) by reflexivity.
  cbn [Go.must Go.rbind].
  rewrite (Uint64_be64 label [] Hl : Go.Uint64 (Go.be64 label) = _).
  cbn [Go.must Go.rbind].
  unfold Go.slice_from.
  replace ([5] ++ Go.be64 label ++ blockBytes)
    with (([5] ++ Go.be64 label) ++ blockBytes ++ [])
    by now rewrite app_nil_r, <- app_assoc.
  rewrite (slice_window ([5] ++ Go.be64 label) blockBytes []).
  - reflexivity.
  - reflexivity.
  - unfold Go.len. rewrite !length_app. simpl length.
    unfold Go.byte. lia.
Qed.

Lemma DecodeLabelSpatialMapKey_roundtrip_witness :
  Voxels.DecodeLabelSpatialMapKey (fun k => Go.Ok (skipn 2 k))
    [9; 9; 5; 0; 0; 0; 0; 0; 0; 1; 44; 0; 0; 0; 7; 0; 0; 0; 8]
  = Go.Ok (300, [0; 0; 0; 7; 0; 0; 0; 8]).
Proof.
  apply (DecodeLabelSpatialMapKey_roundtrip (fun k => Go.Ok (skipn 2 k))
           [9; 9; 5; 0; 0; 0; 0; 0; 0; 1; 44; 0; 0; 0; 7; 0; 0; 0; 8]
           300 [0; 0; 0; 7; 0; 0; 0; 8]
           [5; 0; 0; 0; 0; 0; 0; 1; 44; 0; 0; 0; 7; 0; 0; 0; 8]);
    [lia | reflexivity | reflexivity].
Defined.

Section DecodeBuilt.

Import Go Voxels.

Variable IndexFromKey : list byte -> result (list byte).

Lemma DecodeSpatialMapKey_layout key (coord lab mp : list byte) size :
  IndexFromKey key = Ok (KeyType_byte KeySpatialMap :: coord ++ lab ++ mp) ->
  len coord = size -> length lab = 8%nat -> length mp = 8%nat ->
  DecodeSpatialMapKey IndexFromKey size key
  = (mappedLabel <~ must (Uint64 mp) ;; Ok (lab, mappedLabel)).
Proof.
  intros Hk Hsz Hlab Hmp. unfold DecodeSpatialMapKey. rewrite Hk.
  cbn [rbind]. rewrite index_head. cbn [must rbind].
  rewrite Z.eqb_refl. cbn [negb].
  change (KeyType_byte KeySpatialMap :: coord ++ lab ++ mp)
    with ([KeyType_byte KeySpatialMap] ++ coord ++ lab ++ mp).
  rewrite (app_assoc [KeyType_byte KeySpatialMap] coord).
  rewrite (slice_window ([KeyType_byte KeySpatialMap] ++ coord) lab mp).
  - cbn [must rbind].
    replace (([KeyType_byte KeySpatialMap] ++ coord) ++ lab ++ mp)
      with ((([KeyType_byte KeySpatialMap] ++ coord) ++ lab) ++ mp ++ [])
      by now rewrite app_nil_r, <- !app_assoc.
    rewrite (slice_window (([KeyType_byte KeySpatialMap] ++ coord) ++ lab)
               mp []).
    + reflexivity.
    + rewrite !len_app. unfold len in *. rewrite Hlab. simpl length. lia.
    + rewrite !len_app. unfold len in *. rewrite Hlab, Hmp. simpl length.
      lia.
  - rewrite len_app. unfold len in *. simpl length. lia.
  - rewrite len_app. unfold len in *. rewrite Hlab. simpl length. lia.
Qed.

Lemma DecodeSpatialMapKey_fixed_offsets key
    (coord lab mp rest : list byte) size :
  IndexFromKey key
  = Ok (KeyType_byte KeySpatialMap :: coord ++ lab ++ mp ++ rest) ->
  len coord = size -> length lab = 8%nat -> length mp = 8%nat ->
  DecodeSpatialMapKey IndexFromKey size key
  = (mappedLabel <~ must (Uint64 mp) ;; Ok (lab, mappedLabel)).
Proof.
  intros Hk Hsz Hlab Hmp. unfold DecodeSpatialMapKey. rewrite Hk.
  cbn [rbind]. rewrite index_head. cbn [must rbind].
  rewrite Z.eqb_refl. cbn [negb].
  change (KeyType_byte KeySpatialMap :: coord ++ lab ++ mp ++ rest)
    with ([KeyType_byte KeySpatialMap] ++ coord ++ lab ++ mp ++ rest).
  rewrite (app_assoc [KeyType_byte KeySpatialMap] coord).
  rewrite (slice_window ([KeyType_byte KeySpatialMap] ++ coord) lab
             (mp ++ rest)).
  - cbn [must rbind].
    rewrite (app_assoc ([KeyType_byte KeySpatialMap] ++ coord) lab).
    rewrite (slice_window (([KeyType_byte KeySpatialMap] ++ coord) ++ lab)
               mp rest).
    + reflexivity.
    + rewrite !len_app. unfold len in *. rewrite Hlab. simpl length. lia.
    + rewrite !len_app. unfold len in *. rewrite Hlab, Hmp. simpl length.
      lia.
  - rewrite len_app. unfold len in *. simpl length. lia.
  - rewrite len_app. unfold len in *. rewrite Hlab. simpl length. lia.
Qed.

Lemma LabelFromLabelSizesKey_bytes key b (size lab rest : list byte) :
  IndexFromKey key = Ok (b :: size ++ lab ++ rest) ->
  length size = 8%nat -> length lab = 8%nat ->
  LabelFromLabelSizesKey IndexFromKey key
  = (label <~ must (Uint64 lab) ;; Ok label).
Proof.
  intros Hk Hs Hl. unfold LabelFromLabelSizesKey. rewrite Hk. cbn [rbind].
  change (b :: size ++ lab ++ rest) with ([b] ++ size ++ lab ++ rest).
  rewrite (app_assoc [b] size).
  rewrite (slice_window ([b] ++ size) lab rest).
  - reflexivity.
  - rewrite len_app. unfold len. rewrite Hs. reflexivity.
  - rewrite len_app. unfold len. rewrite Hs, Hl. reflexivity.
Qed.

Variable IndexZYX : Type.
Variable IndexFromBytes : list byte -> result IndexZYX.

Lemma DecodeVoxelBlockKey_built key coord :
  IndexFromKey key = Ok (KeyType_byte KeyVoxelBlock :: coord) ->
  DecodeVoxelBlockKey IndexFromKey IndexZYX IndexFromBytes key
  = match IndexFromBytes coord with
    | Ok zyx => Ok zyx
    | Err e =>
        Err (String.append "Cannot recover ZYX index from key "
               (String.append (fmt_v key)
                  (String.append ": " (String.append e newline))))
    | Panic => Panic
    end.
Proof.
  intros Hk. unfold DecodeVoxelBlockKey. rewrite Hk. cbn [rbind].
  rewrite index_head. cbn [must rbind]. rewrite Z.eqb_refl. cbn [negb].
  unfold slice_from.
  change (KeyType_byte KeyVoxelBlock :: coord)
    with ([KeyType_byte KeyVoxelBlock] ++ coord).
  replace ([KeyType_byte KeyVoxelBlock] ++ coord)
    with ([KeyType_byte KeyVoxelBlock] ++ coord ++ [])
    by now rewrite app_nil_r.
  rewrite (slice_window [KeyType_byte KeyVoxelBlock] coord []).
  - reflexivity.
  - reflexivity.
  - rewrite !len_app. unfold len. simpl length. lia.
Qed.

End DecodeBuilt.

(** X3: a key built by [NewSpatialMapIndex] from a coordinate of
    [IndexZYXSize] bytes, an 8-byte label and a mapping below 2^64 is decoded
    by [DecodeSpatialMapKey] to that label and mapping; built with a nil
    label, it is decoded to eight zero bytes and the mapping. *)
Theorem DecodeSpatialMapKey_roundtrip
    (IndexFromKey : list Go.byte -> Go.result (list Go.byte))
    (IndexZYXSize : Z) (key coord : list Go.byte) (mappedLabel : Z) :
  Go.len coord = IndexZYXSize -> 0 <= mappedLabel < 2 ^ 64 ->
  (forall label index,
     length label = 8%nat ->
     Voxels.NewSpatialMapIndex coord (Some label) mappedLabel = Some index ->
     IndexFromKey key = Go.Ok index ->
     Voxels.DecodeSpatialMapKey IndexFromKey IndexZYXSize key
     = Go.Ok (label, mappedLabel))
  /\ (forall index,
        Voxels.NewSpatialMapIndex coord None mappedLabel = Some index ->
        IndexFromKey key = Go.Ok index ->
        Voxels.DecodeSpatialMapKey IndexFromKey IndexZYXSize key
        = Go.Ok (repeat 0 8, mappedLabel)).
Proof.
  intros Hsz Hm. split.
  - intros label index Hl Hb Hk.
    rewrite NewSpatialMapIndex_closed in Hb.
    cbn [Voxels.label_field] in Hb.
    rewrite (copy_same_length (Go.make 8) label Hl) in Hb.
    assert (Hi : index = Voxels.KeyType_byte Voxels.KeySpatialMap
                           :: coord ++ label ++ Go.be64 mappedLabel)
      by (injection Hb; auto).
    clear Hb. subst index.
    rewrite (DecodeSpatialMapKey_layout IndexFromKey key coord label
               (Go.be64 mappedLabel) IndexZYXSize Hk Hsz Hl eq_refl).
    rewrite (Uint64_be64 mappedLabel [] Hm
             : Go.Uint64 (Go.be64 mappedLabel) = _).
    reflexivity.
  - intros index Hb Hk.
    rewrite NewSpatialMapIndex_closed in Hb.
    cbn [Voxels.label_field] in Hb.
    assert (Hi : index = Voxels.KeyType_byte Voxels.KeySpatialMap
                           :: coord ++ Go.make 8 ++ Go.be64 mappedLabel)
      by (injection Hb; auto).
    clear Hb. subst index.
    rewrite (DecodeSpatialMapKey_layout IndexFromKey key coord (Go.make 8)
               (Go.be64 mappedLabel) IndexZYXSize Hk Hsz eq_refl eq_refl).
    rewrite (Uint64_be64 mappedLabel [] Hm
             : Go.Uint64 (Go.be64 mappedLabel) = _).
    reflexivity.
Qed.

Lemma DecodeSpatialMapKey_roundtrip_witness :
  Voxels.DecodeSpatialMapKey (fun k => Go.Ok (skipn 1 k)) 12
    [0; 4; 0; 0; 0; 3; 0; 0; 0; 2; 0; 0; 0; 1;
     10; 20; 30; 40; 50; 60; 70; 80; 0; 0; 0; 0; 0; 0; 2; 1]
  = Go.Ok ([10; 20; 30; 40; 50; 60; 70; 80], 513).
Proof.
  apply (proj1 (DecodeSpatialMapKey_roundtrip (fun k => Go.Ok (skipn 1 k)) 12
           [0; 4; 0; 0; 0; 3; 0; 0; 0; 2; 0; 0; 0; 1;
            10; 20; 30; 40; 50; 60; 70; 80; 0; 0; 0; 0; 0; 0; 2; 1]
           [0; 0; 0; 3; 0; 0; 0; 2; 0; 0; 0; 1] 513
           eq_refl ltac:(lia))
           [10; 20; 30; 40; 50; 60; 70; 80]
           [4; 0; 0; 0; 3; 0; 0; 0; 2; 0; 0; 0; 1;
            10; 20; 30; 40; 50; 60; 70; 80; 0; 0; 0; 0; 0; 0; 2; 1]);
    reflexivity.
Defined.

(** X4: [DecodeSpatialMapKey] checks no length and reads at fixed offsets:
    on a key built by [NewSpatialMapIndex] from a coordinate that is eight
    bytes longer than [IndexZYXSize] it returns no error, but the last eight
    bytes of the coordinate as the label and the number held by the label
    bytes as the mapping. *)
Theorem DecodeSpatialMapKey_long_coordinate_misreads
    (IndexFromKey : list Go.byte -> Go.result (list Go.byte))
    (IndexZYXSize : Z) (key zyx extra : list Go.byte)
    (label mappedLabel : Z) (index : list Go.byte) :
  Go.len zyx = IndexZYXSize -> length extra = 8%nat ->
  0 <= label < 2 ^ 64 ->
  Voxels.NewSpatialMapIndex (zyx ++ extra) (Some (Go.be64 label)) mappedLabel
  = Some index ->
  IndexFromKey key = Go.Ok index ->
  Voxels.DecodeSpatialMapKey IndexFromKey IndexZYXSize key
  = Go.Ok (extra, label).
Proof.
  intros Hsz He Hl Hb Hk. rewrite NewSpatialMapIndex_closed in Hb.
  cbn [Voxels.label_field] in Hb.
  rewrite (copy_same_length (Go.make 8) (Go.be64 label) eq_refl) in Hb.
  assert (Hi : index = Voxels.KeyType_byte Voxels.KeySpatialMap
                         :: zyx ++ extra ++ Go.be64 label
                                ++ Go.be64 mappedLabel).
  { rewrite <- app_assoc in Hb. injection Hb; auto. }
  clear Hb. subst index.
  rewrite (DecodeSpatialMapKey_fixed_offsets IndexFromKey key zyx extra
             (Go.be64 label) (Go.be64 mappedLabel) IndexZYXSize
             Hk Hsz He eq_refl).
  rewrite (Uint64_be64 label [] Hl : Go.Uint64 (Go.be64 label) = _).
  reflexivity.
Qed.

Lemma DecodeSpatialMapKey_long_coordinate_misreads_witness :
  Voxels.NewSpatialMapIndex
    ([0; 0; 0; 3; 0; 0; 0; 2; 0; 0; 0; 1] ++ [9; 8; 7; 6; 5; 4; 3; 2])
    (Some (Go.be64 300)) 513
  = Some [4; 0; 0; 0; 3; 0; 0; 0; 2; 0; 0; 0; 1; 9; 8; 7; 6; 5; 4; 3; 2;
          0; 0; 0; 0; 0; 0; 1; 44; 0; 0; 0; 0; 0; 0; 2; 1]
  /\ Voxels.DecodeSpatialMapKey (fun k => Go.Ok k) 12
       [4; 0; 0; 0; 3; 0; 0; 0; 2; 0; 0; 0; 1; 9; 8; 7; 6; 5; 4; 3; 2;
        0; 0; 0; 0; 0; 0; 1; 44; 0; 0; 0; 0; 0; 0; 2; 1]
     = Go.Ok ([9; 8; 7; 6; 5; 4; 3; 2], 300).
Proof.
  split; [reflexivity|].
  apply (DecodeSpatialMapKey_long_coordinate_misreads (fun k => Go.Ok k) 12
           [4; 0; 0; 0; 3; 0; 0; 0; 2; 0; 0; 0; 1; 9; 8; 7; 6; 5; 4; 3; 2;
            0; 0; 0; 0; 0; 0; 1; 44; 0; 0; 0; 0; 0; 0; 2; 1]
           [0; 0; 0; 3; 0; 0; 0; 2; 0; 0; 0; 1] [9; 8; 7; 6; 5; 4; 3; 2]
           300 513
           [4; 0; 0; 0; 3; 0; 0; 0; 2; 0; 0; 0; 1; 9; 8; 7; 6; 5; 4; 3; 2;
            0; 0; 0; 0; 0; 0; 1; 44; 0; 0; 0; 0; 0; 0; 2; 1]);
    [reflexivity | reflexivity | lia | reflexivity | reflexivity].
Defined.

(** X5: a key built by [NewLabelSizesIndex] from any size and a label below
    2^64 gives that label back through [LabelFromLabelSizesKey]; the size is
    not returned. *)
Theorem LabelFromLabelSizesKey_roundtrip
    (IndexFromKey : list Go.byte -> Go.result (list Go.byte))
    (key : list Go.byte) (size label : Z) (index : list Go.byte) :
  0 <= label < 2 ^ 64 ->
  Voxels.NewLabelSizesIndex size label = Some index ->
  IndexFromKey key = Go.Ok index ->
  Voxels.LabelFromLabelSizesKey IndexFromKey key = Go.Ok label.
Proof.
  intros Hl Hb Hk. rewrite NewLabelSizesIndex_closed in Hb.
  assert (Hi : index = Voxels.KeyType_byte Voxels.KeyLabelSizes
                         :: Go.be64 size ++ Go.be64 label)
    by (injection Hb; auto).
  clear Hb. subst index.
  destruct (LabelFromLabelSizesKey_any_type IndexFromKey key _ _ _ Hk
              eq_refl eq_refl) as (v & Hv & Hr).
  rewrite (Uint64_be64 label [] Hl : Go.Uint64 (Go.be64 label) = _) in Hv.
  congruence.
Qed.

Lemma LabelFromLabelSizesKey_roundtrip_witness :
  Voxels.LabelFromLabelSizesKey (fun k => Go.Ok (skipn 1 k))
    [0; 6; 0; 0; 0; 0; 0; 0; 3; 232; 0; 0; 0; 0; 0; 1; 0; 5]
  = Go.Ok 65541.
Proof.
  apply (LabelFromLabelSizesKey_roundtrip (fun k => Go.Ok (skipn 1 k))
           [0; 6; 0; 0; 0; 0; 0; 0; 3; 232; 0; 0; 0; 0; 0; 1; 0; 5]
           1000 65541
           [6; 0; 0; 0; 0; 0; 0; 3; 232; 0; 0; 0; 0; 0; 1; 0; 5]);
    [lia | reflexivity | reflexivity].
Defined.

(** X6: [LabelFromLabelSizesKey] looks at the bytes 9 to 16 of the index
    and at nothing else: whatever the leading byte, the eight bytes of the
    size field and the bytes after the 17th are, it returns the label whose
    big-endian bytes stand at 9 to 16, with a nil error. *)
Theorem LabelFromLabelSizesKey_reads_label_field
    (IndexFromKey : list Go.byte -> Go.result (list Go.byte))
    (key : list Go.byte) (b : Go.byte) (size rest : list Go.byte)
    (label : Z) :
  length size = 8%nat -> 0 <= label < 2 ^ 64 ->
  IndexFromKey key = Go.Ok (b :: size ++ Go.be64 label ++ rest) ->
  Voxels.LabelFromLabelSizesKey IndexFromKey key = Go.Ok label.
Proof.
  intros Hs Hl Hk.
  rewrite (LabelFromLabelSizesKey_bytes IndexFromKey key b size
             (Go.be64 label) rest Hk Hs eq_refl).
  rewrite (Uint64_be64 label [] Hl : Go.Uint64 (Go.be64 label) = _).
  reflexivity.
Qed.

Lemma LabelFromLabelSizesKey_reads_label_field_witness :
  Voxels.LabelFromLabelSizesKey (fun k => Go.Ok k)
    [1; 9; 9; 9; 9; 8; 8; 8; 8; 0; 0; 0; 0; 0; 1; 0; 5; 77; 78]
  = Go.Ok 65541.
Proof.
  apply (LabelFromLabelSizesKey_reads_label_field (fun k => Go.Ok k)
           [1; 9; 9; 9; 9; 8; 8; 8; 8; 0; 0; 0; 0; 0; 1; 0; 5; 77; 78]
           1 [9; 9; 9; 9; 8; 8; 8; 8] [77; 78] 65541);
    [reflexivity | lia | reflexivity].
Defined.

(** X7: on a key built by [NewVoxelBlockIndex] from the coordinate bytes
    [coord], [DecodeVoxelBlockKey] hands exactly [coord] to
    [IndexZYX.IndexFromBytes]: it returns the index that call yields, and
    wraps the error of that call with the key. *)
Theorem DecodeVoxelBlockKey_roundtrip
    (IndexFromKey : list Go.byte -> Go.result (list Go.byte))
    (IndexZYX : Type) (IndexFromBytes : list Go.byte -> Go.result IndexZYX)
    (key coord index : list Go.byte) :
  Voxels.NewVoxelBlockIndex coord = Some index ->
  IndexFromKey key = Go.Ok index ->
  (forall zyx, IndexFromBytes coord = Go.Ok zyx ->
     Voxels.DecodeVoxelBlockKey IndexFromKey IndexZYX IndexFromBytes key
     = Go.Ok zyx)
  /\ (forall e, IndexFromBytes coord = Go.Err e ->
        Voxels.DecodeVoxelBlockKey IndexFromKey IndexZYX IndexFromBytes key
        = Go.Err (String.append "Cannot recover ZYX index from key "
                    (String.append (Go.fmt_v key)
                       (String.append ": "
                          (String.append e Voxels.newline))))).
Proof.
  intros Hb Hk. unfold Voxels.NewVoxelBlockIndex in Hb.
  rewrite NewVoxelBlockIndexByCoord_closed in Hb.
  assert (Hi : index = Voxels.KeyType_byte Voxels.KeyVoxelBlock :: coord)
    by (injection Hb; auto).
  clear Hb. subst index.
  rewrite (DecodeVoxelBlockKey_built IndexFromKey IndexZYX IndexFromBytes
             key coord Hk).
  split; intros x Hx; now rewrite Hx.
Qed.

Lemma DecodeVoxelBlockKey_roundtrip_witness :
  Voxels.DecodeVoxelBlockKey (fun k => Go.Ok k) (list Go.byte)
    (fun b => if (Go.len b =? 12) then Go.Ok b else Go.Err "bad length")
    [1; 7; 7]
  = Go.Err (String.append "Cannot recover ZYX index from key [1 7 7]: "
              (String.append "bad length" Voxels.newline)).
Proof.
  apply (proj2 (DecodeVoxelBlockKey_roundtrip (fun k => Go.Ok k)
                  (list Go.byte)
                  (fun b => if (Go.len b =? 12) then Go.Ok b
                            else Go.Err "bad length")
                  [1; 7; 7] [7; 7] [1; 7; 7] eq_refl eq_refl)
           "bad length"%string).
  reflexivity.
Defined.

(** X8: an index returned by the builder of one key space is refused by the
    decoder of another: [DecodeVoxelBlockKey], [DecodeSpatialMapKey] and
    [DecodeLabelSpatialMapKey] return the mismatch error carrying the type
    byte of the builder. *)
Theorem decoders_reject_other_key_spaces
    (IndexFromKey : list Go.byte -> Go.result (list Go.byte))
    (IndexZYX : Type) (IndexFromBytes : list Go.byte -> Go.result IndexZYX)
    (IndexZYXSize : Z) (t : Voxels.KeyType) (key index : list Go.byte) :
  Voxels.built t index ->
  IndexFromKey key = Go.Ok index ->
  (t <> Voxels.KeyVoxelBlock ->
   Voxels.DecodeVoxelBlockKey IndexFromKey IndexZYX IndexFromBytes key
   = Go.Err (Voxels.mismatch "KeyVoxelBlock" (Voxels.KeyType_byte t)))
  /\ (t <> Voxels.KeySpatialMap ->
      Voxels.DecodeSpatialMapKey IndexFromKey IndexZYXSize key
      = Go.Err (Voxels.mismatch "KeySpatialMap" (Voxels.KeyType_byte t)))
  /\ (t <> Voxels.KeyLabelSpatialMap ->
      Voxels.DecodeLabelSpatialMapKey IndexFromKey key
      = Go.Err (Voxels.mismatch "KeyLabelSpatialMap"
                  (Voxels.KeyType_byte t))).
Proof.
  intros Hb Hk. destruct (built_head t index Hb) as [rest ->].
  split; [|split]; intros Ht.
  - apply (DecodeVoxelBlockKey_mismatch IndexFromKey IndexZYX IndexFromBytes
             key _ rest Hk).
    destruct t; try discriminate; congruence.
  - apply (DecodeSpatialMapKey_mismatch IndexFromKey IndexZYXSize
             key _ rest Hk).
    destruct t; try discriminate; congruence.
  - apply (DecodeLabelSpatialMapKey_mismatch IndexFromKey key _ rest Hk).
    destruct t; try discriminate; congruence.
Qed.

Lemma decoders_reject_other_key_spaces_witness :
  Voxels.DecodeSpatialMapKey (fun k => Go.Ok k) 12
    [6; 0; 0; 0; 0; 0; 0; 3; 232; 0; 0; 0; 0; 0; 1; 0; 5]
  = Go.Err "Expected KeySpatialMap index, got 6 byte instead".
Proof.
  apply (proj1 (proj2 (decoders_reject_other_key_spaces (fun k => Go.Ok k)
                  (list Go.byte) (fun b => Go.Ok b) 12 Voxels.KeyLabelSizes
                  [6; 0; 0; 0; 0; 0; 0; 3; 232; 0; 0; 0; 0; 0; 1; 0; 5]
                  [6; 0; 0; 0; 0; 0; 0; 3; 232; 0; 0; 0; 0; 0; 1; 0; 5]
                  (Voxels.built_LabelSizes 1000 65541 _ eq_refl) eq_refl))).
  discriminate.
Defined.

(** X9: the key spaces do not interleave: an index built for a key type
    with a smaller type byte sorts, under [bytes.Compare], before every
    index built for a key type with a larger one. *)
Theorem key_spaces_sorted_by_type
    (t1 t2 : Voxels.KeyType) (index1 index2 : list Go.byte) :
  Voxels.built t1 index1 -> Voxels.built t2 index2 ->
  Voxels.KeyType_byte t1 < Voxels.KeyType_byte t2 ->
  Go.bytes_lt index1 index2.
Proof.
  intros H1 H2 Hlt.
  destruct (built_head t1 index1 H1) as [r1 ->].
  destruct (built_head t2 index2 H2) as [r2 ->].
  unfold Go.bytes_lt. cbn [Go.bytes_compare].
  apply Z.compare_lt_iff in Hlt. now rewrite Hlt.
Qed.

Lemma key_spaces_sorted_by_type_witness :
  Go.bytes_lt
    [2; 255; 255; 255; 255; 255; 255; 255; 255; 0; 0; 0; 0; 0; 0; 0; 9]
    [7; 0; 0; 0; 0; 0; 0; 0; 0].
Proof.
  apply (key_spaces_sorted_by_type Voxels.KeyForwardMap Voxels.KeyLabelSurface
           _ _
           (Voxels.built_ForwardMap [255; 255; 255; 255; 255; 255; 255; 255]
              9 _ eq_refl)
           (Voxels.built_LabelSurface 0 _ eq_refl)).
  reflexivity.
Defined.

(** X10: the keys of [NewLabelSizesIndex] sort by size first and by label
    second: for sizes and labels below 2^64, [bytes.Compare] on two keys is
    the comparison of the sizes, and of the labels when the sizes are
    equal; so two keys are equal only for the same size and label. *)
Theorem NewLabelSizesIndex_order (s1 l1 s2 l2 : Z) :
  0 <= s1 < 2 ^ 64 -> 0 <= l1 < 2 ^ 64 ->
  0 <= s2 < 2 ^ 64 -> 0 <= l2 < 2 ^ 64 ->
  exists k1 k2,
    Voxels.NewLabelSizesIndex s1 l1 = Some k1
    /\ Voxels.NewLabelSizesIndex s2 l2 = Some k2
    /\ Go.bytes_compare k1 k2
       = match s1 ?= s2 with
         | Eq => l1 ?= l2
         | c => c
         end
    /\ (k1 = k2 -> s1 = s2 /\ l1 = l2).
Proof.
  intros Hs1 Hl1 Hs2 Hl2. rewrite !NewLabelSizesIndex_closed.
  eexists. eexists. split; [reflexivity|]. split; [reflexivity|].
  assert (Hc : Go.bytes_compare
                 (Voxels.KeyType_byte Voxels.KeyLabelSizes
                    :: Go.be64 s1 ++ Go.be64 l1)
                 (Voxels.KeyType_byte Voxels.KeyLabelSizes
                    :: Go.be64 s2 ++ Go.be64 l2)
               = match s1 ?= s2 with
                 | Eq => l1 ?= l2
                 | c => c
                 end).
  { change (Voxels.KeyType_byte Voxels.KeyLabelSizes
              :: Go.be64 s1 ++ Go.be64 l1)
      with ([Voxels.KeyType_byte Voxels.KeyLabelSizes]
              ++ Go.be64 s1 ++ Go.be64 l1).
    change (Voxels.KeyType_byte Voxels.KeyLabelSizes
              :: Go.be64 s2 ++ Go.be64 l2)
      with ([Voxels.KeyType_byte Voxels.KeyLabelSizes]
              ++ Go.be64 s2 ++ Go.be64 l2).
    rewrite bytes_compare_common_prefix.
    rewrite bytes_compare_app by reflexivity.
    now rewrite !bytes_compare_be64 by assumption. }
  split; [exact Hc|].
  intros Heq. rewrite Heq, bytes_compare_refl in Hc.
  destruct (Z.compare_spec s1 s2); try discriminate.
  split; [assumption|]. symmetry in Hc. now apply Z.compare_eq in Hc.
Qed.

Lemma NewLabelSizesIndex_order_witness :
  exists k1 k2,
    Voxels.NewLabelSizesIndex 1000 9 = Some k1
    /\ Voxels.NewLabelSizesIndex 1000 65541 = Some k2
    /\ Go.bytes_compare k1 k2
       = match 1000 ?= 1000 with
         | Eq => 9 ?= 65541
         | c => c
         end
    /\ (k1 = k2 -> 1000 = 1000 /\ 9 = 65541).
Proof.
  apply (NewLabelSizesIndex_order 1000 9 1000 65541); lia.
Defined.

(** X11: the keys of [NewLabelSpatialMapIndex] sort by label first and by
    block bytes second: for labels below 2^64, [bytes.Compare] on two keys
    is the comparison of the labels, and [bytes.Compare] of the block bytes
    when the labels are equal. *)
Theorem NewLabelSpatialMapIndex_order (l1 l2 : Z) (b1 b2 : list Go.byte) :
  0 <= l1 < 2 ^ 64 -> 0 <= l2 < 2 ^ 64 ->
  exists k1 k2,
    Voxels.NewLabelSpatialMapIndex l1 b1 = Some k1
    /\ Voxels.NewLabelSpatialMapIndex l2 b2 = Some k2
    /\ Go.bytes_compare k1 k2
       = match l1 ?= l2 with
         | Eq => Go.bytes_compare b1 b2
         | c => c
         end.
Proof.
  intros Hl1 Hl2. rewrite !NewLabelSpatialMapIndex_closed.
  eexists. eexists. split; [reflexivity|]. split; [reflexivity|].
  change (Voxels.KeyType_byte Voxels.KeyLabelSpatialMap :: Go.be64 l1 ++ b1)
    with ([Voxels.KeyType_byte Voxels.KeyLabelSpatialMap]
            ++ Go.be64 l1 ++ b1).
  change (Voxels.KeyType_byte Voxels.KeyLabelSpatialMap :: Go.be64 l2 ++ b2)
    with ([Voxels.KeyType_byte Voxels.KeyLabelSpatialMap]
            ++ Go.be64 l2 ++ b2).
  rewrite bytes_compare_common_prefix.
  rewrite bytes_compare_app by reflexivity.
  now rewrite bytes_compare_be64 by assumption.
Qed.

Lemma NewLabelSpatialMapIndex_order_witness :
  exists k1 k2,
    Voxels.NewLabelSpatialMapIndex 255 [9; 9; 9] = Some k1
    /\ Voxels.NewLabelSpatialMapIndex 256 [0; 0; 0] = Some k2
    /\ Go.bytes_compare k1 k2
       = match 255 ?= 256 with
         | Eq => Go.bytes_compare [9; 9; 9] [0; 0; 0]
         | c => c
         end.
Proof.
  apply (NewLabelSpatialMapIndex_order 255 256 [9; 9; 9] [0; 0; 0]); lia.
Defined.

(** X12: [NewVoxelBlockIndex] keeps the order of the coordinate bytes:
    [bytes.Compare] on two keys is [bytes.Compare] on the coordinates, and
    the key is the type byte 1 followed by the coordinate. *)
Theorem NewVoxelBlockIndex_order (c1 c2 : list Go.byte) :
  Voxels.NewVoxelBlockIndex c1 = Some (1 :: c1)
  /\ Voxels.NewVoxelBlockIndex c2 = Some (1 :: c2)
  /\ Go.bytes_compare (1 :: c1) (1 :: c2) = Go.bytes_compare c1 c2.
Proof.
  unfold Voxels.NewVoxelBlockIndex.
  rewrite !NewVoxelBlockIndexByCoord_closed. repeat split.
Qed.

(** X13: the keys of [NewSpatialMapIndex] for coordinates of one length and
    8-byte labels sort by coordinate, then by label bytes, then by mapping
    (below 2^64). *)
Theorem NewSpatialMapIndex_order
    (c1 c2 l1 l2 : list Go.byte) (m1 m2 : Z) :
  length c1 = length c2 -> length l1 = 8%nat -> length l2 = 8%nat ->
  0 <= m1 < 2 ^ 64 -> 0 <= m2 < 2 ^ 64 ->
  exists k1 k2,
    Voxels.NewSpatialMapIndex c1 (Some l1) m1 = Some k1
    /\ Voxels.NewSpatialMapIndex c2 (Some l2) m2 = Some k2
    /\ Go.bytes_compare k1 k2
       = match Go.bytes_compare c1 c2 with
         | Eq => match Go.bytes_compare l1 l2 with
                 | Eq => m1 ?= m2
                 | c => c
                 end
         | c => c
         end.
Proof.
  intros Hc H1 H2 Hm1 Hm2. rewrite !NewSpatialMapIndex_closed.
  cbn [Voxels.label_field].
  rewrite (copy_same_length (Go.make 8) l1 H1).
  rewrite (copy_same_length (Go.make 8) l2 H2).
  eexists. eexists. split; [reflexivity|]. split; [reflexivity|].
  change (Voxels.KeyType_byte Voxels.KeySpatialMap
            :: c1 ++ l1 ++ Go.be64 m1)
    with ([Voxels.KeyType_byte Voxels.KeySpatialMap]
            ++ c1 ++ l1 ++ Go.be64 m1).
  change (Voxels.KeyType_byte Voxels.KeySpatialMap
            :: c2 ++ l2 ++ Go.be64 m2)
    with ([Voxels.KeyType_byte Voxels.KeySpatialMap]
            ++ c2 ++ l2 ++ Go.be64 m2).
  rewrite bytes_compare_common_prefix.
  rewrite bytes_compare_app by assumption.
  rewrite bytes_compare_app by congruence.
  now rewrite bytes_compare_be64 by assumption.
Qed.

Lemma NewSpatialMapIndex_order_witness :
  exists k1 k2,
    Voxels.NewSpatialMapIndex [0; 0; 1] (Some [1; 1; 1; 1; 1; 1; 1; 1]) 7
    = Some k1
    /\ Voxels.NewSpatialMapIndex [0; 0; 1] (Some [1; 1; 1; 1; 1; 1; 1; 2]) 3
       = Some k2
    /\ Go.bytes_compare k1 k2
       = match Go.bytes_compare [0; 0; 1] [0; 0; 1] with
         | Eq => match Go.bytes_compare [1; 1; 1; 1; 1; 1; 1; 1]
                         [1; 1; 1; 1; 1; 1; 1; 2] with
                 | Eq => 7 ?= 3
                 | c => c
                 end
         | c => c
         end.
Proof.
  apply (NewSpatialMapIndex_order [0; 0; 1] [0; 0; 1]
           [1; 1; 1; 1; 1; 1; 1; 1] [1; 1; 1; 1; 1; 1; 1; 2] 7 3);
    (reflexivity || lia).
Defined.

(** ** [UpdateSpatialMapIndex] on any buffer *)

Section UpdateFacts.

Import Go Voxels.

Lemma UpdateSpatialMapIndex_parts (pre lab mp : list byte) label m :
  length lab = 8%nat -> length mp = 8%nat ->
  UpdateSpatialMapIndex (pre ++ lab ++ mp) label m
  = Some (pre ++ label_field lab label ++ be64 m).
Proof.
  intros Hlab Hmp. unfold UpdateSpatialMapIndex.
  apply write_label_and_mapping; auto.
  rewrite !len_app. unfold len. rewrite Hlab, Hmp. lia.
Qed.

Lemma UpdateSpatialMapIndex_label_short (index l : list byte) m :
  len index < 16 -> UpdateSpatialMapIndex index (Some l) m = None.
Proof.
  intros H. unfold UpdateSpatialMapIndex, on_slice, slice.
  replace (0 <=? 1 + (len index - 17)) with false
    by (symmetry; apply Z.leb_gt; lia).
  reflexivity.
Qed.

Lemma UpdateSpatialMapIndex_nil_short (index : list byte) m :
  len index < 8 -> UpdateSpatialMapIndex index None m = None.
Proof.
  intros H. unfold UpdateSpatialMapIndex. cbn [bind].
  unfold on_slice, slice.
  replace (0 <=? 1 + (len index - 17) + 8) with false
    by (symmetry; apply Z.leb_gt; lia).
  reflexivity.
Qed.

Lemma copy_short_label (old l : list byte) :
  (length l <= length old)%nat -> copy old l = l ++ skipn (length l) old.
Proof.
  intros H. unfold copy. now rewrite firstn_all2 by assumption.
Qed.

End UpdateFacts.

(** X14: [UpdateSpatialMapIndex] works on any buffer that ends with a label
    field and a mapping field of eight bytes each: it keeps every byte in
    front of them and writes the big-endian mapping over the last eight
    bytes; a label [l] replaces the first [min(8, len(l))] bytes of the
    label field by the first bytes of [l] and leaves the others, a nil label
    leaves the field.  It panics on a buffer of fewer than 16 bytes when the
    label is not nil, and of fewer than 8 bytes when it is nil. *)
Theorem UpdateSpatialMapIndex_any_buffer (mappedLabel : Z) :
  (forall pre lab mp l : list Go.byte,
     length lab = 8%nat -> length mp = 8%nat ->
     Voxels.UpdateSpatialMapIndex (pre ++ lab ++ mp) (Some l) mappedLabel
     = Some (pre ++ (firstn 8 l ++ skipn (length l) lab)
               ++ Go.be64 mappedLabel))
  /\ (forall pre lab mp : list Go.byte,
        length lab = 8%nat -> length mp = 8%nat ->
        Voxels.UpdateSpatialMapIndex (pre ++ lab ++ mp) None mappedLabel
        = Some (pre ++ lab ++ Go.be64 mappedLabel))
  /\ (forall (index l : list Go.byte),
        Go.len index < 16 ->
        Voxels.UpdateSpatialMapIndex index (Some l) mappedLabel = None)
  /\ (forall index : list Go.byte,
        Go.len index < 8 ->
        Voxels.UpdateSpatialMapIndex index None mappedLabel = None).
Proof.
  split; [|split; [|split]].
  - intros pre lab mp l Hlab Hmp.
    rewrite UpdateSpatialMapIndex_parts by assumption.
    cbn [Voxels.label_field]. unfold Go.copy. now rewrite Hlab.
  - intros pre lab mp Hlab Hmp.
    now rewrite UpdateSpatialMapIndex_parts by assumption.
  - intros index l. apply UpdateSpatialMapIndex_label_short.
  - intros index. apply UpdateSpatialMapIndex_nil_short.
Qed.

Lemma UpdateSpatialMapIndex_any_buffer_witness :
  Voxels.UpdateSpatialMapIndex
    ([4; 7] ++ [1; 1; 1; 1; 1; 1; 1; 1] ++ [2; 2; 2; 2; 2; 2; 2; 2])
    (Some [3; 3; 3]) 258
  = Some [4; 7; 3; 3; 3; 1; 1; 1; 1; 1; 0; 0; 0; 0; 0; 0; 1; 2]
  /\ Voxels.UpdateSpatialMapIndex
       ([4; 7] ++ [1; 1; 1; 1; 1; 1; 1; 1] ++ [2; 2; 2; 2; 2; 2; 2; 2])
       None 258
     = Some [4; 7; 1; 1; 1; 1; 1; 1; 1; 1; 0; 0; 0; 0; 0; 0; 1; 2]
  /\ Voxels.UpdateSpatialMapIndex [4; 7; 7] (Some [3; 3; 3]) 258 = None.
Proof.
  split; [|split].
  - apply (proj1 (UpdateSpatialMapIndex_any_buffer 258)
             [4; 7] [1; 1; 1; 1; 1; 1; 1; 1] [2; 2; 2; 2; 2; 2; 2; 2]
             [3; 3; 3]); reflexivity.
  - apply (proj1 (proj2 (UpdateSpatialMapIndex_any_buffer 258))
             [4; 7] [1; 1; 1; 1; 1; 1; 1; 1] [2; 2; 2; 2; 2; 2; 2; 2]);
      reflexivity.
  - apply (proj1 (proj2 (proj2 (UpdateSpatialMapIndex_any_buffer 258)))
             [4; 7; 7] [3; 3; 3]).
    reflexivity.
Defined.

(** X15: the last update wins: after any update, an update with an 8-byte
    label leaves the buffer as if it had been the only update; an update
    with a nil label after an update with an 8-byte label replaces the
    mapping alone. *)
Theorem UpdateSpatialMapIndex_last_wins
    (pre lab mp : list Go.byte) (label1 : Voxels.nilable)
    (label2 : list Go.byte) (m1 m2 : Z) :
  length lab = 8%nat -> length mp = 8%nat -> length label2 = 8%nat ->
  Go.bind (Voxels.UpdateSpatialMapIndex (pre ++ lab ++ mp) label1 m1)
    (fun index => Voxels.UpdateSpatialMapIndex index (Some label2) m2)
  = Some (pre ++ label2 ++ Go.be64 m2)
  /\ Voxels.UpdateSpatialMapIndex (pre ++ lab ++ mp) (Some label2) m2
     = Some (pre ++ label2 ++ Go.be64 m2)
  /\ Go.bind (Voxels.UpdateSpatialMapIndex (pre ++ lab ++ mp)
                (Some label2) m1)
       (fun index => Voxels.UpdateSpatialMapIndex index None m2)
     = Some (pre ++ label2 ++ Go.be64 m2).
Proof.
  intros Hlab Hmp H2.
  rewrite !UpdateSpatialMapIndex_parts by assumption.
  cbn [Go.bind].
  rewrite !UpdateSpatialMapIndex_parts
    by (try apply be64_length; try assumption;
        rewrite label_field_length; assumption).
  cbn [Voxels.label_field].
  rewrite !copy_same_length
    by (try rewrite label_field_length; try rewrite copy_length; congruence).
  repeat split.
Qed.

Lemma UpdateSpatialMapIndex_last_wins_witness :
  Go.bind (Voxels.UpdateSpatialMapIndex
             ([4; 7] ++ [1; 1; 1; 1; 1; 1; 1; 1] ++ [2; 2; 2; 2; 2; 2; 2; 2])
             (Some [3; 3; 3]) 258)
    (fun index =>
       Voxels.UpdateSpatialMapIndex index (Some [5; 5; 5; 5; 6; 6; 6; 6]) 9)
  = Some ([4; 7] ++ [5; 5; 5; 5; 6; 6; 6; 6] ++ Go.be64 9).
Proof.
  apply (UpdateSpatialMapIndex_last_wins [4; 7] [1; 1; 1; 1; 1; 1; 1; 1]
           [2; 2; 2; 2; 2; 2; 2; 2] (Some [3; 3; 3])
           [5; 5; 5; 5; 6; 6; 6; 6] 258 9); reflexivity.
Defined.

(** X16: with a label of fewer than eight bytes the update is not a fresh
    build: [UpdateSpatialMapIndex] overwrites the first bytes of the label
    field and keeps the tail of the label stored before, whereas
    [NewSpatialMapIndex] leaves zeros after the short label. *)
Theorem UpdateSpatialMapIndex_short_label_keeps_tail
    (coord labelA labelB : list Go.byte) (mapA mapB : Z) :
  length labelA = 8%nat -> (length labelB <= 8)%nat ->
  Go.bind (Voxels.NewSpatialMapIndex coord (Some labelA) mapA)
    (fun index => Voxels.UpdateSpatialMapIndex index (Some labelB) mapB)
  = Some (4 :: coord ++ (labelB ++ skipn (length labelB) labelA)
            ++ Go.be64 mapB)
  /\ Voxels.NewSpatialMapIndex coord (Some labelB) mapB
     = Some (4 :: coord ++ (labelB ++ repeat 0 (8 - length labelB))
               ++ Go.be64 mapB).
Proof.
  intros HA HB. rewrite !NewSpatialMapIndex_closed. cbn [Go.bind].
  cbn [Voxels.label_field].
  rewrite (copy_same_length (Go.make 8) labelA HA).
  rewrite UpdateSpatialMapIndex_closed by (assumption || apply be64_length).
  cbn [Voxels.label_field].
  rewrite (copy_short_label labelA labelB) by lia.
  rewrite (copy_zero_padded 8 labelB : Go.copy (Go.make 8) labelB = _).
  rewrite (firstn_all2 labelB) by assumption.
  split; reflexivity.
Qed.

Lemma UpdateSpatialMapIndex_short_label_keeps_tail_witness :
  Go.bind (Voxels.NewSpatialMapIndex [0; 1]
             (Some [1; 2; 3; 4; 5; 6; 7; 8]) 1)
    (fun index => Voxels.UpdateSpatialMapIndex index (Some [9; 9; 9]) 2)
  = Some [4; 0; 1; 9; 9; 9; 4; 5; 6; 7; 8; 0; 0; 0; 0; 0; 0; 0; 2]
  /\ Voxels.NewSpatialMapIndex [0; 1] (Some [9; 9; 9]) 2
     = Some [4; 0; 1; 9; 9; 9; 0; 0; 0; 0; 0; 0; 0; 0; 0; 0; 0; 0; 2].
Proof.
  apply (UpdateSpatialMapIndex_short_label_keeps_tail [0; 1]
           [1; 2; 3; 4; 5; 6; 7; 8] [9; 9; 9] 1 2); simpl; lia.
Defined.

(** ** More on the identifiers *)

Section IdentifierOrder.

Import Go Dvid.

Lemma bytes_compare_big_endian n a b :
  0 <= a < 256 ^ Z.of_nat n -> 0 <= b < 256 ^ Z.of_nat n ->
  bytes_compare (big_endian n a) (big_endian n b) = (a ?= b).
Proof.
  intros Ha Hb. destruct (Z.compare_spec a b) as [->|Hlt|Hgt].
  - apply bytes_compare_refl.
  - apply big_endian_lt; lia.
  - rewrite bytes_compare_antisym.
    rewrite (big_endian_lt n b a) by lia. reflexivity.
Qed.

Lemma PutUint16_big_endian v :
  PutUint16 (make 2) v = Some (big_endian 2 v).
Proof.
  change (PutUint16 (make 2) v)
    with (Some [to_byte (Z.shiftr v 8); to_byte v]).
  cbn [big_endian app].
  rewrite Z.shiftr_div_pow2 by lia. reflexivity.
Qed.

Lemma PutUint32_big_endian v :
  PutUint32 (make 4) v = Some (big_endian 4 v).
Proof.
  change (PutUint32 (make 4) v)
    with (Some [to_byte (Z.shiftr v 24); to_byte (Z.shiftr v 16);
                to_byte (Z.shiftr v 8); to_byte v]).
  cbn [big_endian app].
  rewrite !Z.shiftr_div_pow2 by lia.
  rewrite !Z.div_div by lia. reflexivity.
Qed.

Lemma Uint16_head (b rest : list byte) v :
  length b = 2%nat -> Uint16 b = Some v -> Uint16 (b ++ rest) = Some v.
Proof.
  intros Hl Hv. do 3 (destruct b as [|? b]; try discriminate Hl).
  exact Hv.
Qed.

Lemma Uint32_head (b rest : list byte) v :
  length b = 4%nat -> Uint32 b = Some v -> Uint32 (b ++ rest) = Some v.
Proof.
  intros Hl Hv. do 5 (destruct b as [|? b]; try discriminate Hl).
  exact Hv.
Qed.

Lemma Uint16_none (b : list byte) : Uint16 b = None <-> (length b < 2)%nat.
Proof.
  destruct b as [|x [|y b]]; simpl; split; intros H;
    try reflexivity; try discriminate; lia.
Qed.

Lemma Uint32_none (b : list byte) : Uint32 b = None <-> (length b < 4)%nat.
Proof.
  destruct b as [|x [|y [|z [|w b]]]]; simpl; split; intros H;
    try reflexivity; try discriminate; lia.
Qed.

Lemma Uint32_value b0 b1 b2 b3 :
  is_byte b0 -> is_byte b1 -> is_byte b2 -> is_byte b3 ->
  Z.lor (Z.lor (Z.lor b3 (Z.shiftl b2 8)) (Z.shiftl b1 16)) (Z.shiftl b0 24)
  = b3 + b2 * 2 ^ 8 + b1 * 2 ^ 16 + b0 * 2 ^ 24.
Proof.
  unfold is_byte. intros H0 H1 H2 H3.
  rewrite (lor_shiftl_add _ _ 8) by lia.
  rewrite (lor_shiftl_add _ _ 16) by lia.
  rewrite (lor_shiftl_add _ _ 24) by lia.
  reflexivity.
Qed.

Lemma PutUint32_Uint32 (b : list byte) v :
  Forall is_byte b -> Uint32 b = Some v ->
  is_uint32 v /\ PutUint32 (make 4) v = Some (firstn 4 b).
Proof.
  intros Hb Hv.
  destruct b as [|b0 [|b1 [|b2 [|b3 rest]]]]; try discriminate Hv.
  inversion Hb as [|? ? H0 Hb1]; subst.
  inversion Hb1 as [|? ? H1 Hb2]; subst.
  inversion Hb2 as [|? ? H2 Hb3]; subst.
  inversion Hb3 as [|? ? H3 _]; subst.
  cbn [Uint32] in Hv. rewrite Uint32_value in Hv by assumption.
  injection Hv as <-. unfold is_byte in *.
  split.
  - unfold is_uint32, MaxLocalID32. lia.
  - match goal with
    | |- PutUint32 (make 4) ?v = _ =>
        change (PutUint32 (make 4) v)
          with (Some [to_byte (Z.shiftr v 24); to_byte (Z.shiftr v 16);
                      to_byte (Z.shiftr v 8); to_byte v])
    end.
    cbn [firstn].
    rewrite !Z.shiftr_div_pow2 by lia. unfold to_byte.
    change (2 ^ 8) with 256. change (2 ^ 16) with 65536.
    change (2 ^ 24) with 16777216.
    repeat f_equal; Z.to_euclidean_division_equations; lia.
Qed.

End IdentifierOrder.

(** X17: [LocalIDFromBytes] and [LocalID32FromBytes] read the head of the
    slice only: for every identifier in range and any bytes [rest] after its
    encoding, they return the identifier and the width (2 and 4). *)
Theorem LocalID_roundtrip_head (id16 id32 : Z) (rest : list Go.byte) :
  Dvid.is_uint16 id16 -> Dvid.is_uint32 id32 ->
  (exists b, Dvid.LocalID_Bytes id16 = Some b /\ length b = 2%nat
             /\ Dvid.LocalIDFromBytes (b ++ rest) = Some (id16, 2))
  /\ (exists b, Dvid.LocalID32_Bytes id32 = Some b /\ length b = 4%nat
                /\ Dvid.LocalID32FromBytes (b ++ rest) = Some (id32, 4)).
Proof.
  intros H16 H32. split.
  - destruct (Uint16_PutUint16 id16 H16) as (b & Hb & Hl & Hd).
    exists b. split; [exact Hb|]. split; [exact Hl|].
    unfold Dvid.LocalIDFromBytes.
    now rewrite (Uint16_head b rest id16 Hl Hd).
  - destruct (Uint32_PutUint32 id32 H32) as (b & Hb & Hl & Hd).
    exists b. split; [exact Hb|]. split; [exact Hl|].
    unfold Dvid.LocalID32FromBytes.
    now rewrite (Uint32_head b rest id32 Hl Hd).
Qed.

Lemma LocalID_roundtrip_head_witness :
  (exists b, Dvid.LocalID_Bytes 513 = Some b /\ length b = 2%nat
             /\ Dvid.LocalIDFromBytes (b ++ [7; 7]) = Some (513, 2))
  /\ (exists b, Dvid.LocalID32_Bytes 4294967295 = Some b /\ length b = 4%nat
                /\ Dvid.LocalID32FromBytes (b ++ [7; 7])
                   = Some (4294967295, 4)).
Proof.
  apply (LocalID_roundtrip_head 513 4294967295 [7; 7]);
    unfold Dvid.is_uint16, Dvid.is_uint32, Dvid.MaxLocalID,
      Dvid.MaxLocalID32; lia.
Defined.

(** X18: [InstanceIDFromBytes], [RepoIDFromBytes] and [VersionIDFromBytes]
    return the identifier whose [Bytes] start the slice, whatever follows
    them. *)
Theorem InstanceID_RepoID_VersionID_roundtrip_head
    (id : Z) (rest : list Go.byte) :
  Dvid.is_uint32 id ->
  (exists b, Dvid.InstanceID_Bytes id = Some b
             /\ Dvid.InstanceIDFromBytes (b ++ rest) = Some id)
  /\ (exists b, Dvid.RepoID_Bytes id = Some b
                /\ Dvid.RepoIDFromBytes (b ++ rest) = Some id)
  /\ (exists b, Dvid.VersionID_Bytes id = Some b
                /\ Dvid.VersionIDFromBytes (b ++ rest) = Some id).
Proof.
  intros H. destruct (Uint32_PutUint32 id H) as (b & Hb & Hl & Hd).
  pose proof (Uint32_head b rest id Hl Hd) as Hh.
  repeat split; exists b; split; assumption.
Qed.

Lemma InstanceID_RepoID_VersionID_roundtrip_head_witness :
  (exists b, Dvid.InstanceID_Bytes 70000 = Some b
             /\ Dvid.InstanceIDFromBytes (b ++ [1]) = Some 70000)
  /\ (exists b, Dvid.RepoID_Bytes 70000 = Some b
                /\ Dvid.RepoIDFromBytes (b ++ [1]) = Some 70000)
  /\ (exists b, Dvid.VersionID_Bytes 70000 = Some b
                /\ Dvid.VersionIDFromBytes (b ++ [1]) = Some 70000).
Proof.
  apply (InstanceID_RepoID_VersionID_roundtrip_head 70000 [1]).
  unfold Dvid.is_uint32, Dvid.MaxLocalID32. lia.
Defined.

(** X19: the decoders of the identifiers check no length: they panic
    exactly on a slice shorter than the width, 2 bytes for
    [LocalIDFromBytes] and 4 bytes for the 32-bit kinds. *)
Theorem id_from_bytes_panics_iff_short (b : list Go.byte) :
  (Dvid.LocalIDFromBytes b = None <-> (length b < 2)%nat)
  /\ (Dvid.LocalID32FromBytes b = None <-> (length b < 4)%nat)
  /\ (Dvid.InstanceIDFromBytes b = None <-> (length b < 4)%nat)
  /\ (Dvid.RepoIDFromBytes b = None <-> (length b < 4)%nat)
  /\ (Dvid.VersionIDFromBytes b = None <-> (length b < 4)%nat).
Proof.
  split; [|split; [|repeat split; apply Uint32_none]].
  - unfold Dvid.LocalIDFromBytes. rewrite <- Uint16_none.
    destruct (Go.Uint16 b); simpl; split; intros H; congruence.
  - unfold Dvid.LocalID32FromBytes. rewrite <- Uint32_none.
    destruct (Go.Uint32 b); simpl; split; intros H; congruence.
Qed.

(** X20: the encodings keep the order of the identifiers, as the comments of
    [Bytes] ask: for two identifiers in range, [bytes.Compare] on their
    [Bytes] is the comparison of the numbers, for [LocalID] and for the
    32-bit kinds. *)
Theorem id_Bytes_order (a b : Z) :
  (Dvid.is_uint16 a -> Dvid.is_uint16 b ->
   exists x y, Dvid.LocalID_Bytes a = Some x /\ Dvid.LocalID_Bytes b = Some y
               /\ Go.bytes_compare x y = (a ?= b))
  /\ (Dvid.is_uint32 a -> Dvid.is_uint32 b ->
      exists x y,
        Dvid.LocalID32_Bytes a = Some x /\ Dvid.LocalID32_Bytes b = Some y
        /\ Dvid.InstanceID_Bytes a = Some x /\ Dvid.InstanceID_Bytes b = Some y
        /\ Dvid.RepoID_Bytes a = Some x /\ Dvid.RepoID_Bytes b = Some y
        /\ Dvid.VersionID_Bytes a = Some x /\ Dvid.VersionID_Bytes b = Some y
        /\ Go.bytes_compare x y = (a ?= b)).
Proof.
  unfold Dvid.is_uint16, Dvid.is_uint32, Dvid.MaxLocalID, Dvid.MaxLocalID32.
  split; intros Ha Hb.
  - exists (Go.big_endian 2 a), (Go.big_endian 2 b).
    split; [apply PutUint16_big_endian|].
    split; [apply PutUint16_big_endian|].
    apply bytes_compare_big_endian;
      change (256 ^ Z.of_nat 2) with 65536; lia.
  - exists (Go.big_endian 4 a), (Go.big_endian 4 b).
    repeat (split; [apply PutUint32_big_endian|]).
    apply bytes_compare_big_endian;
      change (256 ^ Z.of_nat 4) with 4294967296; lia.
Qed.

Lemma id_Bytes_order_witness :
  (exists x y, Dvid.LocalID_Bytes 255 = Some x
               /\ Dvid.LocalID_Bytes 256 = Some y
               /\ Go.bytes_compare x y = (255 ?= 256))
  /\ (exists x y, Dvid.RepoID_Bytes 65535 = Some x
                  /\ Dvid.RepoID_Bytes 65536 = Some y
                  /\ Go.bytes_compare x y = (65535 ?= 65536)).
Proof.
  split.
  - apply (proj1 (id_Bytes_order 255 256));
      unfold Dvid.is_uint16, Dvid.MaxLocalID; lia.
  - destruct (proj2 (id_Bytes_order 65535 65536)
                ltac:(unfold Dvid.is_uint32, Dvid.MaxLocalID32; lia)
                ltac:(unfold Dvid.is_uint32, Dvid.MaxLocalID32; lia))
      as (x & y & _ & _ & _ & _ & Hx & Hy & _ & _ & Hc).
    exists x, y. repeat split; assumption.
Defined.

(** X21: decoding then encoding gives the bytes back: from any slice of at
    least four bytes, the 32-bit decoders return an identifier in range
    whose [Bytes] are the first four bytes of the slice. *)
Theorem id32_Bytes_of_FromBytes (b : list Go.byte) :
  Forall Go.is_byte b -> (4 <= length b)%nat ->
  exists id,
    Dvid.is_uint32 id
    /\ Dvid.LocalID32FromBytes b = Some (id, 4)
    /\ Dvid.InstanceIDFromBytes b = Some id
    /\ Dvid.RepoIDFromBytes b = Some id
    /\ Dvid.VersionIDFromBytes b = Some id
    /\ Dvid.LocalID32_Bytes id = Some (firstn 4 b)
    /\ Dvid.InstanceID_Bytes id = Some (firstn 4 b)
    /\ Dvid.RepoID_Bytes id = Some (firstn 4 b)
    /\ Dvid.VersionID_Bytes id = Some (firstn 4 b).
Proof.
  intros Hb Hl.
  destruct (Go.Uint32 b) as [v|] eqn:Hv.
  - destruct (PutUint32_Uint32 b v Hb Hv) as [Hr He].
    exists v. unfold Dvid.LocalID32FromBytes, Dvid.InstanceIDFromBytes,
      Dvid.RepoIDFromBytes, Dvid.VersionIDFromBytes.
    rewrite Hv. repeat split; try exact He; apply Hr.
  - apply Uint32_none in Hv. lia.
Qed.

Lemma id32_Bytes_of_FromBytes_witness :
  exists id,
    Dvid.is_uint32 id
    /\ Dvid.LocalID32FromBytes [0; 1; 17; 112; 9] = Some (id, 4)
    /\ Dvid.InstanceIDFromBytes [0; 1; 17; 112; 9] = Some id
    /\ Dvid.RepoIDFromBytes [0; 1; 17; 112; 9] = Some id
    /\ Dvid.VersionIDFromBytes [0; 1; 17; 112; 9] = Some id
    /\ Dvid.LocalID32_Bytes id = Some (firstn 4 [0; 1; 17; 112; 9])
    /\ Dvid.InstanceID_Bytes id = Some (firstn 4 [0; 1; 17; 112; 9])
    /\ Dvid.RepoID_Bytes id = Some (firstn 4 [0; 1; 17; 112; 9])
    /\ Dvid.VersionID_Bytes id = Some (firstn 4 [0; 1; 17; 112; 9]).
Proof.
  apply (id32_Bytes_of_FromBytes [0; 1; 17; 112; 9]).
  - repeat constructor; unfold Go.is_byte; lia.
  - simpl. lia.
Defined.

(** X22: two successful calls of [NewUUID] that return the same string got
    the same 16 bytes from the generator: the rendering loses nothing. *)
Theorem NewUUID_injective (u1 u2 : list Go.byte) :
  Forall Go.is_byte u1 -> Forall Go.is_byte u2 ->
  Dvid.NewUUID (Some u1) <> Dvid.NilUUID ->
  Dvid.NewUUID (Some u1) = Dvid.NewUUID (Some u2) ->
  u1 = u2.
Proof.
  intros H1 H2 Hn Heq.
  assert (Hn2 : Dvid.NewUUID (Some u2) <> Dvid.NilUUID) by congruence.
  unfold Dvid.NewUUID in *.
  destruct (Go.len u1 =? 16) eqn:E1; cbn [negb] in *;
    [|exfalso; apply Hn; reflexivity].
  destruct (Go.len u2 =? 16) eqn:E2; cbn [negb] in *;
    [|exfalso; apply Hn2; reflexivity].
  apply Z.eqb_eq in E1, E2. unfold Go.len in E1, E2.
  rewrite !Sprintf_032x_full in Heq by lia.
  apply (f_equal Dvid.unhex) in Heq.
  rewrite !unhex_hex in Heq by assumption. congruence.
Qed.

Lemma NewUUID_injective_witness :
  [18; 52; 86; 120; 154; 188; 222; 240; 1; 35; 69; 103; 137; 171; 205; 239]
  = [18; 52; 86; 120; 154; 188; 222; 240; 1; 35; 69; 103; 137; 171; 205; 239].
Proof.
  apply (NewUUID_injective
           [18; 52; 86; 120; 154; 188; 222; 240;
            1; 35; 69; 103; 137; 171; 205; 239]
           [18; 52; 86; 120; 154; 188; 222; 240;
            1; 35; 69; 103; 137; 171; 205; 239]).
  - repeat constructor; unfold Go.is_byte; lia.
  - repeat constructor; unfold Go.is_byte; lia.
  - discriminate.
  - reflexivity.
Defined.

(** ** The drain loops and the cgo accounting *)

Section DrainFacts.

Import Go.

Lemma poll_first_idle d : forall fuel env j w s,
  0 <= w -> w + Z.of_nat d <= 5 ->
  (forall i, (i < d)%nat -> Cgo.idle (env (j + i)%nat) = false) ->
  (w + Z.of_nat d < 5 -> Cgo.idle (env (j + d)%nat) = true) ->
  (d < fuel)%nat ->
  Cgo.poll fuel env j {| Cgo.waits := w; Cgo.slept := s |}
  = Some {| Cgo.waits := w + Z.of_nat d; Cgo.slept := s + Z.of_nat d |}.
Proof.
  induction d as [|d IH]; intros fuel env j w s Hw Hd Hbusy Hidle Hfuel;
    (destruct fuel as [|fuel]; [lia|]); cbn [Cgo.poll Cgo.waits Cgo.slept].
  - rewrite Nat.add_0_r in Hidle. rewrite !Z.add_0_r.
    destruct (Z.eq_dec w 5) as [->|Hne].
    + now rewrite orb_true_r.
    + rewrite Hidle by (simpl in *; lia). reflexivity.
  - pose proof (Hbusy 0%nat ltac:(lia)) as H0.
    rewrite Nat.add_0_r in H0. rewrite H0.
    replace (w >=? 5) with false
      by (symmetry; rewrite Z.geb_leb; apply Z.leb_gt; lia).
    cbn [orb].
    rewrite (IH fuel env (S j) (w + 1) (s + 1)); try lia.
    + f_equal. f_equal; lia.
    + intros i Hi. specialize (Hbusy (S i) ltac:(lia)).
      now rewrite Nat.add_succ_r in Hbusy.
    + intros Hlt. rewrite Nat.add_succ_r in Hidle. apply Hidle. lia.
Qed.

Lemma wait_handlers_first_free d : forall fuel Max tok k w,
  0 <= w -> w + Z.of_nat d <= 20 ->
  (forall i, (i < d)%nat -> Max - tok (k + i)%nat > 0) ->
  (w + Z.of_nat d < 20 -> Max - tok (k + d)%nat <= 0) ->
  (d < fuel)%nat ->
  ServerLife.wait_handlers fuel Max tok k w = Some (w + Z.of_nat d).
Proof.
  induction d as [|d IH]; intros fuel Max tok k w Hw Hd Hbusy Hfree Hfuel;
    (destruct fuel as [|fuel]; [lia|]); cbn [ServerLife.wait_handlers].
  - rewrite Nat.add_0_r in Hfree. rewrite Z.add_0_r.
    destruct (Z.eq_dec w 20) as [->|Hne]; [reflexivity|].
    replace (w >=? 20) with false
      by (symmetry; rewrite Z.geb_leb; apply Z.leb_gt; simpl in *; lia).
    replace (Max - tok k >? 0) with false; [reflexivity|].
    symmetry. rewrite Z.gtb_ltb. apply Z.ltb_ge. apply Hfree.
    simpl in *. lia.
  - pose proof (Hbusy 0%nat ltac:(lia)) as H0.
    rewrite Nat.add_0_r in H0.
    replace (w >=? 20) with false
      by (symmetry; rewrite Z.geb_leb; apply Z.leb_gt; lia).
    replace (Max - tok k >? 0) with true
      by (symmetry; rewrite Z.gtb_ltb; apply Z.ltb_lt; lia).
    rewrite (IH fuel Max tok (S k) (w + 1)); try lia.
    + f_equal. lia.
    + intros i Hi. specialize (Hbusy (S i) ltac:(lia)).
      now rewrite Nat.add_succ_r in Hbusy.
    + intros Hlt. rewrite Nat.add_succ_r in Hfree. apply Hfree. lia.
Qed.

(** Every sequence of booleans has a first [true] within a bound, or none
    below the bound. *)
Lemma first_true (p : nat -> bool) n :
  exists d, (d <= n)%nat
            /\ (forall i, (i < d)%nat -> p i = false)
            /\ ((d < n)%nat -> p d = true).
Proof.
  induction n as [|n (d & Hd & Hb & Ht)].
  - exists 0%nat. repeat split; intros; lia.
  - destruct (Nat.eq_dec d n) as [->|Hne].
    + destruct (p n) eqn:Hp.
      * exists n. repeat split; auto.
      * exists (S n). repeat split; try lia.
        intros i Hi. destruct (Nat.eq_dec i n) as [->|]; [assumption|].
        apply Hb. lia.
    + exists d. repeat split; auto. intros _. apply Ht. lia.
Qed.

End DrainFacts.



(** X24: [Shutdown] never waits for ever: whatever the handler tokens and
    the cgo routines do, its first loop ends after at most 20 sleeps of one
    second and [BlockOnActiveCgo] after at most 5 more; with all tokens back
    at the first look the first loop does not sleep, and with a token
    missing at each of the first 20 looks it sleeps exactly 20 times. *)
Theorem Shutdown_bounded
    (MaxChunkHandlers : Z) (tok : nat -> Z) (env : nat -> Cgo.reading)
    (fuel : nat) :
  (21 <= fuel)%nat ->
  exists waits cgo,
    ServerLife.Shutdown fuel MaxChunkHandlers tok env = Some (waits, cgo)
    /\ 0 <= waits <= 20 /\ 0 <= cgo <= 5
    /\ (MaxChunkHandlers - tok 0%nat <= 0 -> waits = 0)
    /\ ((forall k, (k < 20)%nat -> MaxChunkHandlers - tok k > 0) ->
        waits = 20).
Proof.
  intros Hfuel.
  destruct (first_true (fun k => MaxChunkHandlers - tok k <=? 0) 20)
    as (d & Hd & Hb & Ht).
  destruct (first_true (fun k => Cgo.idle (env k)) 5)
    as (c & Hc & Hcb & Hct).
  exists (Z.of_nat d), (Z.of_nat c). unfold ServerLife.Shutdown.
  rewrite (wait_handlers_first_free d fuel MaxChunkHandlers tok 0%nat 0);
    try lia.
  - cbn [Go.bind]. unfold Cgo.BlockOnActiveCgo.
    rewrite (poll_first_idle c fuel env 0%nat 0 0); try lia; auto;
      [|intros H; apply Hct; lia].
    cbn [Go.bind Cgo.slept]. split; [reflexivity|].
    split; [lia|]. split; [lia|]. split.
    + intros H0. destruct d as [|d]; [reflexivity|].
      specialize (Hb 0%nat ltac:(lia)). apply Z.leb_gt in Hb. lia.
    + intros Hall. destruct (Nat.eq_dec d 20) as [->|Hne]; [reflexivity|].
      specialize (Ht ltac:(lia)). apply Z.leb_le in Ht.
      specialize (Hall d ltac:(lia)). lia.
  - intros i Hi. specialize (Hb i Hi). apply Z.leb_gt in Hb.
    rewrite Nat.add_0_l. lia.
  - intros Hlt. rewrite Nat.add_0_l. apply Z.leb_le. apply Ht. lia.
Qed.

Lemma Shutdown_bounded_witness :
  exists waits cgo,
    ServerLife.Shutdown 21 4 (fun _ => 3) (fun _ =>
      {| Cgo.cgoNumActive := 0; Cgo.queued := 0 |}) = Some (waits, cgo)
    /\ 0 <= waits <= 20 /\ 0 <= cgo <= 5
    /\ (4 - 3 <= 0 -> waits = 0)
    /\ ((forall k, (k < 20)%nat -> 4 - 3 > 0) -> waits = 20).
Proof.
  apply (Shutdown_bounded 4 (fun _ => 3)
           (fun _ => {| Cgo.cgoNumActive := 0; Cgo.queued := 0 |}) 21).
  lia.
Defined.

Section TrackerFacts.

Import Go CgoTracker.

Lemma sum_app a b : sum (a ++ b) = sum a + sum b.
Proof.
  induction a as [|x a IH]; simpl; [reflexivity|].
  unfold sum in *. simpl. rewrite IH. lia.
Qed.

Lemma occurrences_cons e x es :
  occurrences e (x :: es)
  = (if same_event e x then 1 else 0) + occurrences e es.
Proof.
  unfold occurrences, len. cbn [filter].
  destruct (same_event e x); cbn [length]; lia.
Qed.

Lemma sum_signed q : signed q -> sum q = fold_right Z.add 0 (map effect q).
Proof.
  induction 1 as [|v q Hv _ IH]; [reflexivity|].
  unfold sum in *. cbn [fold_right map]. rewrite IH.
  destruct Hv as [-> | ->]; reflexivity.
Qed.

Lemma run_balance es : forall s s',
  signed (cgoActive s) ->
  run s es = Some s' ->
  signed (cgoActive s')
  /\ cgoNumActive s' + pending s' + sum (map effect (cgoActive s'))
     = cgoNumActive s + pending s + sum (map effect (cgoActive s))
       + occurrences Start es - occurrences Stop es
  /\ len (cgoActive s')
     = len (cgoActive s) + occurrences Start es + occurrences Stop es
       - occurrences Receive es.
Proof.
  induction es as [|e es IH]; intros s s' Hs Hrun.
  - cbn [run] in Hrun. assert (s' = s) by congruence. subst s'.
    unfold occurrences, len. cbn [filter length].
    split; [assumption|]. lia.
  - cbn [run] in Hrun.
    destruct (step s e) as [s1|] eqn:Hstep; cbn [bind] in Hrun;
      [|discriminate].
    rewrite !occurrences_cons.
    assert (Hs1 : signed (cgoActive s1)
                  /\ cgoNumActive s1 + pending s1
                     + sum (map effect (cgoActive s1))
                     = cgoNumActive s + pending s
                       + sum (map effect (cgoActive s))
                       + (if same_event Start e then 1 else 0)
                       - (if same_event Stop e then 1 else 0)
                  /\ len (cgoActive s1)
                     = len (cgoActive s)
                       + (if same_event Start e then 1 else 0)
                       + (if same_event Stop e then 1 else 0)
                       - (if same_event Receive e then 1 else 0)).
    { destruct e; cbn [step same_event] in *.
      - unfold StartCgo, send_status in Hstep.
        destruct (len (cgoActive s) <? MaxNumberConcurrentCgo);
          [|discriminate].
        assert (s1 = {| cgoActive := cgoActive s ++ [cgoStarted];
                        received := received s;
                        cgoNumActive := cgoNumActive s |}) by congruence.
        subst s1. unfold pending. cbn [cgoActive received cgoNumActive].
        rewrite map_app, sum_app, len_app.
        split.
        + apply Forall_app. split; [assumption|].
          constructor; [now left | constructor].
        + change (sum (map effect [cgoStarted])) with 1.
          change (len [cgoStarted]) with 1. lia.
      - unfold StopCgo, send_status in Hstep.
        destruct (len (cgoActive s) <? MaxNumberConcurrentCgo);
          [|discriminate].
        assert (s1 = {| cgoActive := cgoActive s ++ [cgoStopped];
                        received := received s;
                        cgoNumActive := cgoNumActive s |}) by congruence.
        subst s1. unfold pending. cbn [cgoActive received cgoNumActive].
        rewrite map_app, sum_app, len_app.
        split.
        + apply Forall_app. split; [assumption|].
          constructor; [now right | constructor].
        + change (sum (map effect [cgoStopped])) with (-1).
          change (len [cgoStopped]) with 1. lia.
      - unfold receive in Hstep.
        destruct (received s) eqn:Hr; [discriminate|].
        destruct (cgoActive s) as [|v q] eqn:Hq; [discriminate|].
        assert (s1 = {| cgoActive := q; received := Some v;
                        cgoNumActive := cgoNumActive s |}) by congruence.
        subst s1. unfold pending. rewrite Hr.
        cbn [cgoActive received cgoNumActive map].
        inversion Hs as [|? ? Hv Hq']; subst.
        split; [exact Hq'|].
        unfold sum, len. cbn [fold_right length]. lia.
      - unfold tally in Hstep.
        destruct (received s) as [v|] eqn:Hr; [|discriminate].
        assert (s1 = {| cgoActive := cgoActive s; received := None;
                        cgoNumActive :=
                          if v =? cgoStarted then cgoNumActive s + 1
                          else if v =? cgoStopped then cgoNumActive s - 1
                          else cgoNumActive s |}) by congruence.
        subst s1. unfold pending. rewrite Hr.
        cbn [cgoActive received cgoNumActive].
        split; [assumption|]. unfold effect.
        destruct (v =? cgoStarted); [lia|].
        destruct (v =? cgoStopped); lia. }
    destruct Hs1 as (Hsig & Hsum & Hlen).
    destruct (IH s1 s' Hsig Hrun) as (H1 & H2 & H3).
    split; [assumption|]. lia.
Qed.

End TrackerFacts.

(** X25: the accounting of the cgo routines balances: after any
    interleaving of [StartCgo], [StopCgo], receives and counter updates of
    the counting goroutine, [cgoNumActive], plus what the status it has
    received and not yet applied will add, plus the statuses still queued
    (+1 for a start, -1 for a stop), is the number of starts minus the
    number of stops, and the queue holds the messages sent and not yet
    received.  So when the queue is empty and the goroutine is back at its
    receive, [cgoNumActive] is the number of routines that have started and
    not stopped; while it holds a received start with the queue empty, the
    counter is one too low. *)
Theorem cgo_accounting (es : list CgoTracker.event) (s : CgoTracker.state) :
  CgoTracker.run CgoTracker.initial es = Some s ->
  CgoTracker.cgoNumActive s + CgoTracker.pending s
  + CgoTracker.sum (CgoTracker.cgoActive s)
  = CgoTracker.occurrences CgoTracker.Start es
    - CgoTracker.occurrences CgoTracker.Stop es
  /\ Go.len (CgoTracker.cgoActive s)
     = CgoTracker.occurrences CgoTracker.Start es
       + CgoTracker.occurrences CgoTracker.Stop es
       - CgoTracker.occurrences CgoTracker.Receive es
  /\ (CgoTracker.cgoActive s = [] -> CgoTracker.received s = None ->
      CgoTracker.cgoNumActive s
      = CgoTracker.occurrences CgoTracker.Start es
        - CgoTracker.occurrences CgoTracker.Stop es)
  /\ (CgoTracker.cgoActive s = [] ->
      CgoTracker.received s = Some CgoTracker.cgoStarted ->
      CgoTracker.cgoNumActive s
      = CgoTracker.occurrences CgoTracker.Start es
        - CgoTracker.occurrences CgoTracker.Stop es - 1).
Proof.
  intros Hrun.
  destruct (run_balance es CgoTracker.initial s (Forall_nil _) Hrun)
    as (Hsig & Hsum & Hlen).
  unfold CgoTracker.pending at 2 in Hsum.
  cbn [CgoTracker.initial CgoTracker.cgoActive CgoTracker.cgoNumActive
       CgoTracker.received map] in Hsum, Hlen.
  change (CgoTracker.sum []) with 0 in Hsum.
  change (Go.len (@nil Z)) with 0 in Hlen.
  rewrite (sum_signed _ Hsig).
  unfold CgoTracker.sum in Hsum.
  split; [lia|]. split; [lia|]. split.
  - intros Hq Hr. unfold CgoTracker.pending in Hsum.
    rewrite Hq, Hr in Hsum. cbn [map fold_right] in Hsum. lia.
  - intros Hq Hr. unfold CgoTracker.pending in Hsum.
    rewrite Hq, Hr in Hsum. cbn [map fold_right] in Hsum.
    change (CgoTracker.effect CgoTracker.cgoStarted) with 1 in Hsum. lia.
Qed.

Lemma cgo_accounting_witness :
  CgoTracker.run CgoTracker.initial
    [CgoTracker.Start; CgoTracker.Start; CgoTracker.Receive;
     CgoTracker.Stop; CgoTracker.Tally; CgoTracker.Receive]
  = Some {| CgoTracker.cgoActive := [-1];
            CgoTracker.received := Some 1;
            CgoTracker.cgoNumActive := 1 |}
  /\ CgoTracker.cgoNumActive
       {| CgoTracker.cgoActive := [-1]; CgoTracker.received := Some 1;
          CgoTracker.cgoNumActive := 1 |}
     + CgoTracker.pending
         {| CgoTracker.cgoActive := [-1]; CgoTracker.received := Some 1;
            CgoTracker.cgoNumActive := 1 |}
     + CgoTracker.sum [-1]
     = CgoTracker.occurrences CgoTracker.Start
         [CgoTracker.Start; CgoTracker.Start; CgoTracker.Receive;
          CgoTracker.Stop; CgoTracker.Tally; CgoTracker.Receive]
       - CgoTracker.occurrences CgoTracker.Stop
           [CgoTracker.Start; CgoTracker.Start; CgoTracker.Receive;
            CgoTracker.Stop; CgoTracker.Tally; CgoTracker.Receive].
Proof.
  split; [reflexivity|].
  apply (proj1 (cgo_accounting
                  [CgoTracker.Start; CgoTracker.Start; CgoTracker.Receive;
                   CgoTracker.Stop; CgoTracker.Tally; CgoTracker.Receive]
                  {| CgoTracker.cgoActive := [-1];
                     CgoTracker.received := Some 1;
                     CgoTracker.cgoNumActive := 1 |} eq_refl)).
Defined.

(** ** The load sampler *)

Section SamplerFacts.

Import Go ServerLife.

Lemma sample_all_snoc Max lens l m :
  sample_all Max (lens ++ [l]) m = sample Max l (sample_all Max lens m).
Proof. unfold sample_all. now rewrite fold_left_app. Qed.

Lemma sample_bounds Max l m :
  0 <= Max -> 0 <= l <= Max ->
  0 <= ticks m < 100 ->
  0 <= curActiveHandlers m <= Max -> 0 <= ActiveHandlers m <= Max ->
  let m' := sample Max l m in
  ticks m' = (ticks m + 1) mod 100
  /\ 0 <= curActiveHandlers m' <= Max
  /\ 0 <= ActiveHandlers m' <= Max
  /\ Max - l <= curActiveHandlers m'
  /\ (ticks m' <> 0 ->
      ActiveHandlers m' = ActiveHandlers m
      /\ curActiveHandlers m' = Z.max (curActiveHandlers m) (Max - l))
  /\ (ticks m' = 0 ->
      ActiveHandlers m' = curActiveHandlers m
      /\ curActiveHandlers m' = Max - l).
Proof.
  intros HMax Hl Ht Hc Ha m'. subst m'. unfold sample.
  rewrite (Z.rem_mod_nonneg (ticks m + 1) 100) by lia.
  pose proof (Z.mod_pos_bound (ticks m + 1) 100 ltac:(lia)) as Hmod.
  destruct (Z.eqb_spec ((ticks m + 1) mod 100) 0) as [H0|H0];
    cbn [ticks curActiveHandlers ActiveHandlers].
  - destruct (Z.gtb_spec (Max - l) 0) as [Hg|Hg];
      cbn [ticks curActiveHandlers ActiveHandlers];
      repeat split; try lia.
  - destruct (Z.gtb_spec (Max - l) (curActiveHandlers m)) as [Hg|Hg];
      cbn [ticks curActiveHandlers ActiveHandlers];
      repeat split; try lia.
Qed.

Lemma sample_all_bounds Max lens :
  0 <= Max -> Forall (fun l => 0 <= l <= Max) lens ->
  let m := sample_all Max lens sampler_initial in
  ticks m = len lens mod 100
  /\ 0 <= curActiveHandlers m <= Max
  /\ 0 <= ActiveHandlers m <= Max.
Proof.
  intros HMax. induction lens as [|l lens IH] using rev_ind; intros Hall m.
  - subst m. cbn. repeat split; lia.
  - apply Forall_app in Hall as [Hlens Hl].
    inversion Hl as [|? ? Hl' _]; subst.
    destruct (IH Hlens) as (Ht & Hc & Ha).
    subst m. rewrite sample_all_snoc.
    pose proof (Z.mod_pos_bound (len lens) 100 ltac:(lia)) as Hmod.
    destruct (sample_bounds Max l (sample_all Max lens sampler_initial)
                HMax Hl' ltac:(lia) Hc Ha) as (Ht' & Hc' & Ha' & _).
    split; [|split; assumption].
    rewrite Ht', Ht, len_app. change (len [l]) with 1.
    now rewrite Zplus_mod_idemp_l.
Qed.

End SamplerFacts.

(** X26: the load sampler stays within its bounds: for any readings of
    [len(HandlerToken)] between 0 and [MaxChunkHandlers], [ticks] is the
    number of readings modulo 100, and [curActiveHandlers] and the reported
    [ActiveHandlers] stay between 0 and [MaxChunkHandlers]. *)
Theorem sampler_bounds (MaxChunkHandlers : Z) (lens : list Z) :
  0 <= MaxChunkHandlers ->
  Forall (fun l => 0 <= l <= MaxChunkHandlers) lens ->
  let m := ServerLife.sample_all MaxChunkHandlers lens
             ServerLife.sampler_initial in
  ServerLife.ticks m = Go.len lens mod 100
  /\ 0 <= ServerLife.curActiveHandlers m <= MaxChunkHandlers
  /\ 0 <= ServerLife.ActiveHandlers m <= MaxChunkHandlers.
Proof. apply sample_all_bounds. Qed.

Lemma sampler_bounds_witness :
  let m := ServerLife.sample_all 4 [4; 1; 3] ServerLife.sampler_initial in
  ServerLife.ticks m = Go.len [4; 1; 3] mod 100
  /\ 0 <= ServerLife.curActiveHandlers m <= 4
  /\ 0 <= ServerLife.ActiveHandlers m <= 4.
Proof.
  apply (sampler_bounds 4 [4; 1; 3]); [lia|].
  repeat constructor; lia.
Defined.

(** X27: one pass of the sampler keeps the peak of the second: while
    [ticks] does not wrap, [curActiveHandlers] becomes the larger of its
    value and the handlers now active ([MaxChunkHandlers - len(HandlerToken)])
    and [ActiveHandlers] is unchanged; when [ticks] wraps to 0 the peak is
    published in [ActiveHandlers] and the new peak starts from the handlers
    now active. *)
Theorem sample_tracks_peak
    (MaxChunkHandlers lenTokens : Z) (m : ServerLife.sampler) :
  0 <= MaxChunkHandlers -> 0 <= lenTokens <= MaxChunkHandlers ->
  0 <= ServerLife.ticks m < 100 ->
  0 <= ServerLife.curActiveHandlers m <= MaxChunkHandlers ->
  0 <= ServerLife.ActiveHandlers m <= MaxChunkHandlers ->
  let m' := ServerLife.sample MaxChunkHandlers lenTokens m in
  (ServerLife.ticks m' <> 0 ->
   ServerLife.ActiveHandlers m' = ServerLife.ActiveHandlers m
   /\ ServerLife.curActiveHandlers m'
      = Z.max (ServerLife.curActiveHandlers m)
          (MaxChunkHandlers - lenTokens))
  /\ (ServerLife.ticks m' = 0 ->
      ServerLife.ticks m = 99
      /\ ServerLife.ActiveHandlers m' = ServerLife.curActiveHandlers m
      /\ ServerLife.curActiveHandlers m' = MaxChunkHandlers - lenTokens).
Proof.
  intros HMax Hl Ht Hc Ha m'.
  destruct (sample_bounds MaxChunkHandlers lenTokens m HMax Hl Ht Hc Ha)
    as (Ht' & _ & _ & _ & Hkeep & Hwrap).
  fold m' in Ht', Hkeep, Hwrap.
  split; [exact Hkeep|].
  intros H0. split; [|now apply Hwrap].
  rewrite H0 in Ht'. symmetry in Ht'.
  Z.to_euclidean_division_equations. lia.
Qed.

Lemma sample_tracks_peak_witness :
  let m' := ServerLife.sample 8 3
              {| ServerLife.ticks := 99; ServerLife.ActiveHandlers := 2;
                 ServerLife.curActiveHandlers := 7 |} in
  (ServerLife.ticks m' <> 0 ->
   ServerLife.ActiveHandlers m' = 2
   /\ ServerLife.curActiveHandlers m' = Z.max 7 (8 - 3))
  /\ (ServerLife.ticks m' = 0 ->
      99 = 99
      /\ ServerLife.ActiveHandlers m' = 7
      /\ ServerLife.curActiveHandlers m' = 8 - 3).
Proof.
  apply (sample_tracks_peak 8 3
           {| ServerLife.ticks := 99; ServerLife.ActiveHandlers := 2;
              ServerLife.curActiveHandlers := 7 |}); simpl; lia.
Defined.

(** ** What [SetupEngines] leaves in [Engines] *)

Section SetupState.

Import Go Server.

Variable Config : Type.
Variable NewKeyValueStore :
  string -> bool -> Config -> option KVEngine * error.
Variable NewGraphStore :
  string -> bool -> Config -> option KVEngine -> option GraphEngine * error.

Lemma SetupEngines_success_state path config E :
  snd (SetupEngines Config NewKeyValueStore NewGraphStore path config E)
  = None ->
  exists kv g,
    NewKeyValueStore path true config = (Some kv, None)
    /\ NewGraphStore path true config (Some kv) = (Some g, None)
    /\ fst (SetupEngines Config NewKeyValueStore NewGraphStore path config E)
       = {| kvEngine := Some kv; kvDB := Some kv; kvSetter := Some kv;
            kvGetter := Some kv; graphEngine := Some g; graphDB := Some g;
            graphSetter := Some g; graphGetter := Some g; setup := true |}.
Proof.
  unfold SetupEngines.
  destruct (NewKeyValueStore path true config) as [e [err|]] eqn:HK;
    [discriminate|].
  destruct e as [[[] [] []]|]; try discriminate.
  cbv beta iota zeta delta
    [set_kvEngine set_kvDB set_kvSetter set_kvGetter assert_type negb
     kvEngine kvDB implOrderedKeyValueDB implOrderedKeyValueSetter
     implOrderedKeyValueGetter].
  destruct (NewGraphStore path true config _) as [g [err|]] eqn:HG;
    [discriminate|].
  destruct g as [[[] [] []]|]; try discriminate.
  intros _. eexists. eexists. split; [reflexivity|].
  split; [exact HG|]. reflexivity.
Qed.

Lemma SetupEngines_no_database path config E e :
  NewKeyValueStore path true config = (e, None) ->
  has implOrderedKeyValueDB e = false ->
  kvDB (fst (SetupEngines Config NewKeyValueStore NewGraphStore
               path config E)) = None.
Proof.
  intros HK Hhas. unfold SetupEngines. rewrite HK.
  destruct e as [[[] [] []]|]; try discriminate Hhas; reflexivity.
Qed.

Lemma SetupEngines_kv_error path config E e msg :
  NewKeyValueStore path true config = (e, Some msg) ->
  SetupEngines Config NewKeyValueStore NewGraphStore path config E
  = (set_kvEngine e E, Some msg).
Proof. intros HK. unfold SetupEngines. now rewrite HK. Qed.

Lemma SetupEngines_graph_error path config E kv g msg :
  NewKeyValueStore path true config = (Some kv, None) ->
  (forall c, has (kv_impl c) (Some kv) = true) ->
  NewGraphStore path true config (Some kv) = (g, Some msg) ->
  SetupEngines Config NewKeyValueStore NewGraphStore path config E
  = ({| kvEngine := Some kv; kvDB := Some kv; kvSetter := Some kv;
        kvGetter := Some kv; graphEngine := g; graphDB := graphDB E;
        graphSetter := graphSetter E; graphGetter := graphGetter E;
        setup := setup E |}, Some msg).
Proof.
  intros HK Hall HG. apply has_all_kv in Hall.
  injection Hall as ->. unfold SetupEngines. rewrite HK.
  cbv beta iota zeta delta
    [set_kvEngine set_kvDB set_kvSetter set_kvGetter assert_type negb
     kvEngine kvDB implOrderedKeyValueDB implOrderedKeyValueSetter
     implOrderedKeyValueGetter].
  rewrite HG. reflexivity.
Qed.

End SetupState.

(** X28: when [SetupEngines] returns nil, the four key-value fields of
    [Engines] all hold the engine that [NewKeyValueStore] returned and the
    four graph fields the engine that [NewGraphStore] returned for it, so
    [SetupTiers] then backs the three tiers by that one key-value engine. *)
Theorem SetupEngines_then_SetupTiers
    (Config : Type)
    (NewKeyValueStore :
       string -> bool -> Config -> option Server.KVEngine * Server.error)
    (NewGraphStore :
       string -> bool -> Config -> option Server.KVEngine ->
       option Server.GraphEngine * Server.error)
    (path : string) (config : Config) (E : Server.EnginesT) :
  let r := Server.SetupEngines Config NewKeyValueStore NewGraphStore
             path config E in
  snd r = None ->
  exists kv g,
    NewKeyValueStore path true config = (Some kv, None)
    /\ NewGraphStore path true config (Some kv) = (Some g, None)
    /\ fst r
       = {| Server.kvEngine := Some kv; Server.kvDB := Some kv;
            Server.kvSetter := Some kv; Server.kvGetter := Some kv;
            Server.graphEngine := Some g; Server.graphDB := Some g;
            Server.graphSetter := Some g; Server.graphGetter := Some g;
            Server.setup := true |}
    /\ ServerLife.SetupTiers (fst r)
       = {| ServerLife.MetaData := Some kv; ServerLife.SmallData := Some kv;
            ServerLife.BigData := Some kv |}.
Proof.
  intros r Hr. subst r.
  destruct (SetupEngines_success_state Config NewKeyValueStore NewGraphStore
              path config E Hr) as (kv & g & HK & HG & HE).
  exists kv, g. split; [exact HK|]. split; [exact HG|].
  split; [exact HE|]. rewrite HE. reflexivity.
Qed.

Lemma SetupEngines_then_SetupTiers_witness :
  let kv := {| Server.implOrderedKeyValueDB := true;
               Server.implOrderedKeyValueSetter := true;
               Server.implOrderedKeyValueGetter := true |} in
  let r := Server.SetupEngines unit
             (fun _ _ _ => (Some kv, None))
             (fun _ _ _ _ =>
                (Some {| Server.implGraphDB := true;
                         Server.implGraphSetter := true;
                         Server.implGraphGetter := true |}, None))
             "/data/db" tt
             {| Server.kvEngine := None; Server.kvDB := None;
                Server.kvSetter := None; Server.kvGetter := None;
                Server.graphEngine := None; Server.graphDB := None;
                Server.graphSetter := None; Server.graphGetter := None;
                Server.setup := false |} in
  exists kv' g,
    (Some kv, @None string) = (Some kv', None)
    /\ (Some {| Server.implGraphDB := true; Server.implGraphSetter := true;
                Server.implGraphGetter := true |}, @None string)
       = (Some g, None)
    /\ fst r
       = {| Server.kvEngine := Some kv'; Server.kvDB := Some kv';
            Server.kvSetter := Some kv'; Server.kvGetter := Some kv';
            Server.graphEngine := Some g; Server.graphDB := Some g;
            Server.graphSetter := Some g; Server.graphGetter := Some g;
            Server.setup := true |}
    /\ ServerLife.SetupTiers (fst r)
       = {| ServerLife.MetaData := Some kv'; ServerLife.SmallData := Some kv';
            ServerLife.BigData := Some kv' |}.
Proof.
  intros kv r.
  apply (SetupEngines_then_SetupTiers unit
           (fun _ _ _ => (Some kv, None))
           (fun _ _ _ _ =>
              (Some {| Server.implGraphDB := true;
                       Server.implGraphSetter := true;
                       Server.implGraphGetter := true |}, None))
           "/data/db" tt
           {| Server.kvEngine := None; Server.kvDB := None;
              Server.kvSetter := None; Server.kvGetter := None;
              Server.graphEngine := None; Server.graphDB := None;
              Server.graphSetter := None; Server.graphGetter := None;
              Server.setup := false |}).
  reflexivity.
Defined.

(** X29: an error of a constructor is returned as it is: an error of
    [NewKeyValueStore] leaves everything but [Engines.kvEngine] untouched,
    and an error of [NewGraphStore], reached with a key-value engine that
    has its three interfaces, leaves the graph assertions undone and
    [Engines.setup] as it was, the key-value fields being set already.  A
    key-value engine without the database interface leaves [Engines.kvDB]
    nil, whatever it held before. *)
Theorem SetupEngines_constructor_errors
    (Config : Type)
    (NewKeyValueStore :
       string -> bool -> Config -> option Server.KVEngine * Server.error)
    (NewGraphStore :
       string -> bool -> Config -> option Server.KVEngine ->
       option Server.GraphEngine * Server.error)
    (path : string) (config : Config) (E : Server.EnginesT) :
  let r := Server.SetupEngines Config NewKeyValueStore NewGraphStore
             path config E in
  (forall e msg,
     NewKeyValueStore path true config = (e, Some msg) ->
     r = (Server.set_kvEngine e E, Some msg))
  /\ (forall kv g msg,
        NewKeyValueStore path true config = (Some kv, None) ->
        (forall c, Server.has (Server.kv_impl c) (Some kv) = true) ->
        NewGraphStore path true config (Some kv) = (g, Some msg) ->
        r = ({| Server.kvEngine := Some kv; Server.kvDB := Some kv;
                Server.kvSetter := Some kv; Server.kvGetter := Some kv;
                Server.graphEngine := g;
                Server.graphDB := Server.graphDB E;
                Server.graphSetter := Server.graphSetter E;
                Server.graphGetter := Server.graphGetter E;
                Server.setup := Server.setup E |}, Some msg))
  /\ (forall e,
        NewKeyValueStore path true config = (e, None) ->
        Server.has Server.implOrderedKeyValueDB e = false ->
        Server.kvDB (fst r) = None
        /\ ServerLife.SetupTiers (fst r)
           = {| ServerLife.MetaData := None; ServerLife.SmallData := None;
                ServerLife.BigData := None |}).
Proof.
  intros r. subst r. split; [|split].
  - intros e msg. apply SetupEngines_kv_error.
  - intros kv g msg. apply SetupEngines_graph_error.
  - intros e HK Hhas.
    pose proof (SetupEngines_no_database Config NewKeyValueStore
                  NewGraphStore path config E e HK Hhas) as Hdb.
    split; [exact Hdb|]. unfold ServerLife.SetupTiers. now rewrite Hdb.
Qed.

Lemma SetupEngines_constructor_errors_witness :
  Server.SetupEngines unit
    (fun _ _ _ => (None, Some "cannot open"%string))
    (fun _ _ _ _ => (None, None)) "/data/db" tt
    {| Server.kvEngine := None; Server.kvDB := None;
       Server.kvSetter := None; Server.kvGetter := None;
       Server.graphEngine := None; Server.graphDB := None;
       Server.graphSetter := None; Server.graphGetter := None;
       Server.setup := true |}
  = (Server.set_kvEngine None
       {| Server.kvEngine := None; Server.kvDB := None;
          Server.kvSetter := None; Server.kvGetter := None;
          Server.graphEngine := None; Server.graphDB := None;
          Server.graphSetter := None; Server.graphGetter := None;
          Server.setup := true |}, Some "cannot open"%string).
Proof.
  apply (proj1 (SetupEngines_constructor_errors unit
                  (fun _ _ _ => (None, Some "cannot open"%string))
                  (fun _ _ _ _ => (None, None)) "/data/db" tt
                  {| Server.kvEngine := None; Server.kvDB := None;
                     Server.kvSetter := None; Server.kvGetter := None;
                     Server.graphEngine := None; Server.graphDB := None;
                     Server.graphSetter := None; Server.graphGetter := None;
                     Server.setup := true |}) None "cannot open"%string).
  reflexivity.
Defined.

(** ** Opening the datastore *)

Section OpenFacts.

Import ServerLife.

Variable DS : Type.
Variable datastore_Open : string -> option DS * option string.
Variable filepath_Dir : string -> string.

Lemma OpenDatastore_when_open path rs svc :
  Service rs = Some svc ->
  OpenDatastore DS datastore_Open filepath_Dir path rs
  = (rs, false, Some already_open).
Proof. intros H. unfold OpenDatastore. now rewrite H. Qed.

Lemma OpenDatastore_first path rs svc :
  Service rs = None ->
  datastore_Open path = (Some svc, None) ->
  OpenDatastore DS datastore_Open filepath_Dir path rs
  = ({| Service := Some svc; ErrorLogDir := filepath_Dir path |}, true, None).
Proof.
  intros H HO. unfold OpenDatastore. rewrite H, HO. reflexivity.
Qed.

Lemma OpenDatastore_failed path rs svc msg :
  Service rs = None ->
  datastore_Open path = (svc, Some msg) ->
  OpenDatastore DS datastore_Open filepath_Dir path rs
  = ({| Service := svc; ErrorLogDir := ErrorLogDir rs |}, false, Some msg).
Proof.
  intros H HO. unfold OpenDatastore. rewrite H, HO. reflexivity.
Qed.

End OpenFacts.


